(** * Concert setlist analysis: a shallow embedding of [concert_analysis.py]

    The class [JasonIsbellConcertData] holds a pandas data frame with the
    columns [Date], [Venue] and [Song] and answers aggregate queries over it.
    The frame is modelled as the list of its rows, in row order; each query
    method is a function of that list.

    Modelling conventions.
    - A Python [str] is a list of characters; a character is a code point
      below 256, so the blank test and the case mapping below are those of
      Python on that range.
    - A cell of the [Venue] or [Song] column is a text or the missing value
      [NaN] an empty field is read as; a cell of the [Date] column is the
      integer a pandas timestamp stores, nanoseconds since 1970, or [NaT].
      The methods treat missing values as pandas does: [nunique], [groupby],
      [min], [max] and [count] skip them, [unique] keeps them, a comparison
      with them is false, and [sort_values] puts them last.
    - Python [int]s are [Z]; the two rounded columns are binary64 floats.
    - What pandas and numpy leave open is a parameter: the date parser, the
      date formatter and the order [argsort] gives to equal keys
      (class [Pandas]). *)

From Stdlib Require Import Ascii String.
From Stdlib Require Import Bool Arith ZArith Lia.
From Stdlib Require Import Floats.
From Stdlib Require Import List Permutation Sorted.
Import ListNotations.

Local Open Scope Z_scope.

(** ** Python strings *)

Definition str := list ascii.

Definition py (s : string) : str := list_ascii_of_string s.

Definition chr_eqb (a b : ascii) : bool := Ascii.eqb a b.

Fixpoint str_eqb (a b : str) : bool :=
  match a, b with
  | [], [] => true
  | x :: a', y :: b' => chr_eqb x y && str_eqb a' b'
  | _, _ => false
  end.

(** Code-point order on strings, the order [sorted] and [groupby] use. *)
Fixpoint str_leb (a b : str) : bool :=
  match a, b with
  | [], _ => true
  | _ :: _, [] => false
  | x :: a', y :: b' =>
      let m := nat_of_ascii x in
      let n := nat_of_ascii y in
      if (m <? n)%nat then true
      else if (n <? m)%nat then false
      else str_leb a' b'
  end.

(** [str.isspace] on one character: tab to carriage return, the four
    separators 28..31, the space, NEL and the no-break space. *)
Definition is_space (c : ascii) : bool :=
  let n := nat_of_ascii c in
  ((9 <=? n) && (n <=? 13) || (28 <=? n) && (n <=? 32)
   || (n =? 133) || (n =? 160))%nat.

(** [str.lower] on one character: A-Z and the Latin-1 capitals except the
    multiplication sign. *)
Definition lower (c : ascii) : ascii :=
  let n := nat_of_ascii c in
  if ((65 <=? n) && (n <=? 90)
      || (192 <=? n) && (n <=? 222) && negb (n =? 215))%nat
  then ascii_of_nat (n + 32) else c.

Fixpoint lstrip (s : str) : str :=
  match s with
  | c :: t => if is_space c then lstrip t else s
  | [] => []
  end.

Definition rstrip (s : str) : str := rev (lstrip (rev s)).

(** [str.strip()] *)
Definition strip (s : str) : str := rstrip (lstrip s).

Definition newline : ascii := ascii_of_nat 10.
Definition lparen : ascii := ascii_of_nat 40.
Definition rparen : ascii := ascii_of_nat 41.

(** ** Regular expressions

    The fragment of Python's [re] syntax the queries are modelled on: a
    pattern is a list of alternatives separated by [|], an alternative is a
    sequence of literal characters, dots and backslash-escaped punctuation.
    Every other metacharacter puts the pattern outside the fragment. *)

Inductive atom : Type :=
| Lit (c : ascii)
| AnyChar.

Definition regex := list (list atom).

Definition is_meta (c : ascii) : bool :=
  existsb (chr_eqb c) (py ".^$*+?{}[]\|()").

Definition is_ascii_alnum (c : ascii) : bool :=
  let n := nat_of_ascii c in
  ((48 <=? n) && (n <=? 57) || (65 <=? n) && (n <=? 90)
   || (97 <=? n) && (n <=? 122))%nat.

(** Adds an atom in front of the first alternative. *)
Definition push (a : atom) (r : regex) : regex :=
  match r with
  | alt :: rest => (a :: alt) :: rest
  | [] => [[a]]
  end.

(** [re.compile] on the fragment; [None] for a pattern outside it (a
    backslash before a letter or digit is a class or an error in Python, a
    bare metacharacter an operator). *)
Fixpoint re_parse (p : str) : option regex :=
  match p with
  | [] => Some [[]]
  | c :: t =>
      if chr_eqb c "|"%char then option_map (cons []) (re_parse t)
      else if chr_eqb c "."%char then option_map (push AnyChar) (re_parse t)
      else if chr_eqb c "\"%char then
        match t with
        | e :: t' =>
            if is_ascii_alnum e then None
            else option_map (push (Lit e)) (re_parse t')
        | [] => None
        end
      else if is_meta c then None
      else option_map (push (Lit c)) (re_parse t)
  end.

(** One atom against one character under [re.IGNORECASE]: a literal matches
    the characters with its lower case, the dot everything but a newline. *)
Definition atom_match (a : atom) (c : ascii) : bool :=
  match a with
  | Lit p => chr_eqb (lower c) (lower p)
  | AnyChar => negb (chr_eqb c newline)
  end.

(** The alternative matches a prefix of the text. *)
Fixpoint match_here (alt : list atom) (s : str) : bool :=
  match alt, s with
  | [], _ => true
  | _ :: _, [] => false
  | a :: alt', c :: s' => atom_match a c && match_here alt' s'
  end.

Fixpoint search_alt (alt : list atom) (s : str) : bool :=
  match_here alt s
  || match s with
     | [] => false
     | _ :: t => search_alt alt t
     end.

(** [pat.search(x) is not None], with [flags=re.IGNORECASE]. *)
Definition re_search (r : regex) (s : str) : bool :=
  existsb (fun alt => search_alt alt s) r.

(** The patterns [_process_songs] passes to [str.contains]. *)
Definition cover_re : regex := [map Lit (py "cover")].

Definition special_re : regex :=
  [map Lit (py "first time"); map Lit (py "dedicated");
   map Lit (py "with Sadler"); map Lit (py "bluegrass")].

(** ** [re.sub(r'\(.*\)', '', s)]

    [close_span t] is the length of the longest prefix of [t] that stays on
    one line and ends in a closing parenthesis: what the greedy [.*\)]
    consumes after an opening parenthesis, the dot stopping at a newline. *)
Fixpoint close_span (t : str) : option nat :=
  match t with
  | [] => None
  | c :: t' =>
      if chr_eqb c newline then None
      else match close_span t' with
           | Some k => Some (S k)
           | None => if chr_eqb c rparen then Some 1%nat else None
           end
  end.

(** The scan of [re.sub]: at an opening parenthesis that starts a match the
    match is dropped ([skip] counts what is left of it) and the scan resumes
    behind it; every other character is kept. *)
Fixpoint sub_parens_from (skip : nat) (s : str) : str :=
  match s with
  | [] => []
  | c :: t =>
      match skip with
      | S k => sub_parens_from k t
      | O =>
          if chr_eqb c lparen then
            match close_span t with
            | Some k => sub_parens_from k t
            | None => c :: sub_parens_from 0 t
            end
          else c :: sub_parens_from 0 t
      end
  end.

Definition sub_parens (s : str) : str := sub_parens_from 0 s.

(** ** Exceptions *)

Inductive exn : Type :=
| ValueError
| IndexError
| AttributeError.

Inductive result (A : Type) : Type :=
| Ok (a : A)
| Raise (e : exn).

Arguments Ok {A} a.
Arguments Raise {A} e.

Definition bind {A B : Type} (m : result A) (k : A -> result B) : result B :=
  match m with
  | Ok a => k a
  | Raise e => Raise e
  end.

Notation "x <- m ;; k" := (bind m (fun x => k))
  (at level 61, m at next level, right associativity).

Fixpoint mapM {A B : Type} (f : A -> result B) (l : list A)
    : result (list B) :=
  match l with
  | [] => Ok []
  | x :: t => y <- f x ;; ys <- mapM f t ;; Ok (y :: ys)
  end.

(** ** Cells and missing values *)

(** A cell of a text column: a text, or [None] for the missing value [NaN]
    an empty field of the file is read as. *)
Definition cell := option str.

(** A cell of the [Date] column: a timestamp, or pandas' missing value
    [NaT]. *)
Inductive timestamp : Type :=
| Timestamp (t : Z)
| NaT.

Definition ts_value (t : timestamp) : option Z :=
  match t with
  | Timestamp z => Some z
  | NaT => None
  end.

(** [Series.dropna()]: the values that are not missing, in row order. *)
Definition dropna {A : Type} (l : list (option A)) : list A :=
  flat_map (fun c => match c with
                     | Some x => [x]
                     | None => []
                     end) l.

(** [cell == k] for a text [k]: a missing value equals nothing. *)
Definition cell_is (k : str) (c : cell) : bool :=
  match c with
  | Some s => str_eqb s k
  | None => false
  end.

(** [date == d] for a timestamp [d]: [NaT] equals nothing. *)
Definition date_is (d : Z) (t : timestamp) : bool :=
  match t with
  | Timestamp z => z =? d
  | NaT => false
  end.

(** [date == t] for a date value [t]: a comparison with [NaT] is false. *)
Definition date_eq (t x : timestamp) : bool :=
  match t with
  | Timestamp d => date_is d x
  | NaT => false
  end.

(** Equality of cells as [unique] sees it: missing values are one value. *)
Definition cell_eqb (a b : cell) : bool :=
  match a, b with
  | Some x, Some y => str_eqb x y
  | None, None => true
  | _, _ => false
  end.

Definition ts_eqb (a b : timestamp) : bool :=
  match a, b with
  | Timestamp x, Timestamp y => x =? y
  | NaT, NaT => true
  | _, _ => false
  end.

(** [Series.isin(values)] for a list of texts. *)
Definition isin (c : cell) (values : list str) : bool :=
  match c with
  | Some s => existsb (str_eqb s) values
  | None => false
  end.

(** [Series.str.contains(pat, case=False, na=False)] on one cell. *)
Definition str_contains (pat : regex) (c : cell) : bool :=
  match c with
  | Some s => re_search pat s
  | None => false
  end.

(** ** The data frame *)

Record Row : Type := mkRow {
  Date : timestamp;
  Venue : cell;
  Song : cell;
  clean_song : cell;
  is_cover : bool;
  is_special : bool
}.

Definition DataFrame := list Row.

(** A line of the CSV file as [pd.read_csv] and [pd.to_datetime] give it:
    the parsed date and the two text cells. *)
Definition CsvRow : Type := (timestamp * cell * cell)%type.

(** What the three assignments of [_process_songs] put into one row; the
    [.str] methods leave a missing value missing. *)
Definition process_row (r : CsvRow) : Row :=
  let '(d, v, s) := r in
  {| Date := d;
     Venue := v;
     Song := s;
     clean_song := option_map (fun x => strip (sub_parens x)) s;
     is_cover := str_contains cover_re s;
     is_special := str_contains special_re s |}.

(** The frame of the processed rows of a file. *)
Definition rows_of (csv : list CsvRow) : DataFrame := map process_row csv.

(** The [.str] accessor exists on a column of texts: a column without rows,
    or one with a text in it. A column of missing values only is read as a
    column of numbers. *)
Definition has_str (column : list cell) : bool :=
  match column with
  | [] => true
  | _ => existsb (fun c => match c with Some _ => true | None => false end)
           column
  end.

(** [_process_songs]: the derived columns, or the [AttributeError] of the
    [.str] accessor. *)
Definition _process_songs (csv : list CsvRow) : result DataFrame :=
  if has_str (map snd csv) then Ok (rows_of csv) else Raise AttributeError.

(** The constructor, on the rows of the file it has read. *)
Definition __init__ (csv : list CsvRow) : result DataFrame :=
  _process_songs csv.

(** ** What pandas and numpy provide *)

(** [l[idx]]: the elements of [l] at the positions [idx], in that order.
    numpy raises on a position out of range; every index list built below is
    a rearrangement of positions of [l], and the model drops what is out of
    range. *)
Definition take {A : Type} (l : list A) (idx : list nat) : list A :=
  flat_map (fun i => match nth_error l i with
                     | Some x => [x]
                     | None => []
                     end) idx.

(** The library functions the class calls, with what their documentation
    promises: [to_datetime] parses a date text ([None]: it raises
    [ValueError]), [strftime] is the [%Y-%m-%d] formatter of a timestamp, and
    [argsort] gives the positions of an array in an ascending order of its
    values, equal values in an order of its choosing. *)
Class Pandas : Type := {
  to_datetime : str -> option timestamp;
  strftime : Z -> str;
  argsort : list Z -> list nat;
  argsort_perm : forall ks, Permutation (argsort ks) (seq 0 (length ks));
  argsort_sorted : forall ks, Sorted Z.le (take ks (argsort ks))
}.

(** [Series.unique()]: the distinct values in order of first appearance. *)
Fixpoint unique {A : Type} (eqb : A -> A -> bool) (l : list A) : list A :=
  match l with
  | [] => []
  | x :: t => x :: filter (fun y => negb (eqb y x)) (unique eqb t)
  end.

(** [Series.nunique()] of the values that are not missing. *)
Definition nunique {A : Type} (eqb : A -> A -> bool) (l : list A) : Z :=
  Z.of_nat (length (unique eqb l)).

Fixpoint insert_sorted (x : str) (l : list str) : list str :=
  match l with
  | [] => [x]
  | y :: t => if str_leb x y then x :: l else y :: insert_sorted x t
  end.

(** The group keys of [groupby(column)] over the values that are not
    missing: the distinct values, sorted. *)
Definition group_keys (column : list str) : list str :=
  fold_right insert_sorted [] (unique str_eqb column).

(** [len(l)] *)
Definition len {A : Type} (l : list A) : Z := Z.of_nat (length l).

(** The dates of a frame that are not missing, in row order. *)
Definition Dates (df : DataFrame) : list Z :=
  dropna (map (fun r => ts_value (Date r)) df).

(** [Series.min()] and [Series.max()] of the dates that are not missing:
    [NaT] when there is none. *)
Definition date_min (l : list Z) : timestamp :=
  match l with
  | [] => NaT
  | x :: t => Timestamp (fold_left Z.min t x)
  end.

Definition date_max (l : list Z) : timestamp :=
  match l with
  | [] => NaT
  | x :: t => Timestamp (fold_left Z.max t x)
  end.

(** [ts.strftime('%Y-%m-%d')]: [NaT] does not support it. *)
Definition strftime_ymd `{Pandas} (ts : timestamp) : result str :=
  match ts with
  | Timestamp t => Ok (strftime t)
  | NaT => Raise ValueError
  end.

(** [Series.sum()] of a boolean column. *)
Definition count_true (l : list bool) : Z := len (filter (fun b => b) l).

(** ** Floating-point columns

    The two rounded columns are binary64 numbers, computed as numpy
    computes them; the counts that are converted are below 2^63. *)

Definition to_float (z : Z) : float := PrimFloat.of_uint63 (Uint63.of_Z z).

Definition two52 : float := 4503599627370496%float.

(** [numpy.rint]: the nearest integer, halves to the even one. Below 2^52
    adding and taking away 2^52 rounds so; from there on every number is an
    integer. *)
Definition rint (x : float) : float :=
  let a := PrimFloat.abs x in
  if PrimFloat.eqb a 0%float then x
  else if PrimFloat.ltb a two52 then
    let r := PrimFloat.sub (PrimFloat.add a two52) two52 in
    if PrimFloat.ltb x 0%float then PrimFloat.opp r else r
  else x.

(** [.round(1)]: numpy multiplies by ten, rounds and divides by ten. *)
Definition round1 (x : float) : float :=
  PrimFloat.div (rint (PrimFloat.mul x 10%float)) 10%float.

(** ** Sorting *)

(** pandas' [nargsort] on keys none of which is missing: for a descending
    order the keys are reversed, sorted ascending, and the resulting
    positions reversed again. *)
Definition nargsort `{Pandas} (ks : list Z) (ascending : bool) : list nat :=
  let idx := seq 0 (length ks) in
  if ascending then take idx (argsort ks)
  else rev (take (rev idx) (argsort (rev ks))).

(** [df.sort_values(key, ascending=...)] on such a key. *)
Definition sort_values `{Pandas} {A : Type} (key : A -> Z) (ascending : bool)
    (df : list A) : list A :=
  take df (nargsort (map key df) ascending).

(** The positions of the keys that are not missing, and of those that
    are. *)
Fixpoint notna_idx (i : nat) (ks : list (option Z)) : list nat :=
  match ks with
  | [] => []
  | Some _ :: t => i :: notna_idx (S i) t
  | None :: t => notna_idx (S i) t
  end.

Fixpoint isna_idx (i : nat) (ks : list (option Z)) : list nat :=
  match ks with
  | [] => []
  | Some _ :: t => isna_idx (S i) t
  | None :: t => i :: isna_idx (S i) t
  end.

(** pandas' [nargsort] in ascending order on keys some of which may be
    missing: the keys that are not missing are sorted, the positions of the
    missing ones follow in row order ([na_position='last']). *)
Definition nargsort_na `{Pandas} (ks : list (option Z)) : list nat :=
  take (notna_idx 0 ks) (argsort (dropna ks)) ++ isna_idx 0 ks.

(** [df.sort_values(key)] on a key that may be missing. *)
Definition sort_values_na `{Pandas} {A : Type} (key : A -> option Z)
    (df : list A) : list A :=
  take df (nargsort_na (map key df)).

(** [df.head(n)], that is [df.iloc[:n]]: a negative [n] counts from the end. *)
Definition head {A : Type} (n : Z) (df : list A) : list A :=
  if 0 <=? n then firstn (Z.to_nat n) df
  else firstn (length df - Z.to_nat (- n)) df.

(** ** The query methods *)

Record Stats : Type := mkStats {
  total_shows : Z;
  total_songs : Z;
  unique_songs : Z;
  total_venues : Z;
  first_show : str;
  last_show : str;
  covers : Z;
  special_performances : Z
}.

Definition get_stats `{Pandas} (df : DataFrame) : result Stats :=
  first <- strftime_ymd (date_min (Dates df)) ;;
  last <- strftime_ymd (date_max (Dates df)) ;;
  Ok {| total_shows := nunique Z.eqb (Dates df);
        total_songs := len df;
        unique_songs := nunique str_eqb (dropna (map clean_song df));
        total_venues := nunique str_eqb (dropna (map Venue df));
        first_show := first;
        last_show := last;
        covers := count_true (map is_cover df);
        special_performances := count_true (map is_special df) |}.

Record SongCount : Type := mkSongCount {
  song : str;
  play_count : Z;
  percentage : float
}.

(** [df.groupby('clean_song').size().reset_index(name='play_count')] with the
    [percentage] column added; rows without a clean song are in no group. *)
Definition song_counts (df : DataFrame) : list SongCount :=
  map (fun k =>
         let n := len (filter (fun r => cell_is k (clean_song r)) df) in
         {| song := k;
            play_count := n;
            percentage :=
              round1 (PrimFloat.mul
                        (PrimFloat.div (to_float n)
                           (to_float (nunique Z.eqb (Dates df))))
                        100%float) |})
      (group_keys (dropna (map clean_song df))).

(** [n] is [None] when the caller leaves it out. *)
Definition get_top_songs `{Pandas} (n : option Z) (df : DataFrame)
    : result (list SongCount) :=
  let n := match n with Some n => n | None => 10 end in
  Ok (head n (sort_values play_count false (song_counts df))).

Definition get_show_setlist `{Pandas} (date : str) (df : DataFrame)
    : result (list cell) :=
  match to_datetime date with
  | None => Raise ValueError
  | Some t => Ok (map Song (filter (fun r => date_eq t (Date r)) df))
  end.

Definition get_rare_songs (df : DataFrame) : result (list cell) :=
  let rare_songs :=
    filter (fun k => len (filter (fun r => cell_is k (clean_song r)) df) =? 1)
           (group_keys (dropna (map clean_song df))) in
  Ok (unique cell_eqb
        (map Song (filter (fun r => isin (clean_song r) rare_songs) df))).

Record VenueStat : Type := mkVenueStat {
  venue : str;
  shows : Z;
  venue_total_songs : Z;
  avg_songs_per_show : float
}.

(** [groupby('Venue').agg({'Date': 'nunique', 'Song': 'count'})] with the
    average column added: rows without a venue are in no group, [nunique]
    skips missing dates and [count] missing songs. *)
Definition venue_groups (df : DataFrame) : list VenueStat :=
  map (fun v =>
         let g := filter (fun r => cell_is v (Venue r)) df in
         let s := nunique Z.eqb (Dates g) in
         let t := len (dropna (map Song g)) in
         {| venue := v;
            shows := s;
            venue_total_songs := t;
            avg_songs_per_show :=
              round1 (PrimFloat.div (to_float t) (to_float s)) |})
      (group_keys (dropna (map Venue df))).

Definition get_venue_stats `{Pandas} (df : DataFrame)
    : result (list VenueStat) :=
  Ok (sort_values shows false (venue_groups df)).

(** A row of the frame [find_song_appearances] returns. *)
Definition Appearance : Type := (timestamp * cell * cell)%type.

Definition appearance_date (a : Appearance) : option Z :=
  ts_value (fst (fst a)).

(** [None]: the pattern is outside the modelled fragment of [re]. *)
Definition find_song_appearances `{Pandas} (song_name : str) (df : DataFrame)
    : option (result (list Appearance)) :=
  match re_parse song_name with
  | None => None
  | Some pat =>
      let matches := filter (fun r => str_contains pat (clean_song r)) df in
      Some (Ok (sort_values_na appearance_date
                  (map (fun r => (Date r, Venue r, Song r)) matches)))
  end.

Record Show : Type := mkShow {
  date : str;
  show_venue : cell;
  songs : list cell;
  song_count : Z
}.

Record Export : Type := mkExport {
  export_shows : list Show;
  song_frequency : list SongCount;
  venue_stats : list VenueStat;
  rare_songs : list cell;
  stats : Stats
}.

(** [Series.iloc[0]] *)
Definition iloc0 {A : Type} (l : list A) : result A :=
  match l with
  | x :: _ => Ok x
  | [] => Raise IndexError
  end.

(** One entry of the [shows] list; the date is formatted first, and [NaT]
    does not get further. *)
Definition export_show `{Pandas} (df : DataFrame) (t : timestamp)
    : result Show :=
  d <- strftime_ymd t ;;
  let rows := filter (fun r => date_eq t (Date r)) df in
  v <- iloc0 (map Venue rows) ;;
  Ok {| date := d;
        show_venue := v;
        songs := map Song rows;
        song_count := len rows |}.

Definition export_for_visualization `{Pandas} (df : DataFrame)
    : result Export :=
  sh <- mapM (export_show df) (unique ts_eqb (map Date df)) ;;
  top <- get_top_songs (Some 20) df ;;
  vs <- get_venue_stats df ;;
  rare <- get_rare_songs df ;;
  st <- get_stats df ;;
  Ok {| export_shows := sh;
        song_frequency := top;
        venue_stats := vs;
        rare_songs := rare;
        stats := st |}.

(** ** A reference sorter

    A stable insertion sort of the positions by key: one way to meet the
    contract of [argsort], used to run the methods on concrete frames. *)

Fixpoint insert_pos (ks : list Z) (i : nat) (l : list nat) : list nat :=
  match l with
  | [] => [i]
  | j :: t =>
      if nth i ks 0 <? nth j ks 0 then i :: l else j :: insert_pos ks i t
  end.

Definition stable_argsort (ks : list Z) : list nat :=
  fold_left (fun acc i => insert_pos ks i acc) (seq 0 (length ks)) [].

(** Another way to meet the contract: the same insertion, last position
    first, which lists equal keys in the opposite order. *)
Definition reversed_argsort (ks : list Z) : list nat :=
  fold_left (fun acc i => insert_pos ks i acc) (rev (seq 0 (length ks))) [].

(** Days since 1970-01-01 of a date of the Gregorian calendar, and back. *)
Definition days_from_civil (y m d : Z) : Z :=
  let y := if m <=? 2 then y - 1 else y in
  let era := y / 400 in
  let yoe := y - era * 400 in
  let mp := if 2 <? m then m - 3 else m + 9 in
  let doy := (153 * mp + 2) / 5 + d - 1 in
  let doe := yoe * 365 + yoe / 4 - yoe / 100 + doy in
  era * 146097 + doe - 719468.

Definition civil_from_days (z : Z) : Z * Z * Z :=
  let z := z + 719468 in
  let era := z / 146097 in
  let doe := z - era * 146097 in
  let yoe := (doe - doe / 1460 + doe / 36524 - doe / 146096) / 365 in
  let doy := doe - (365 * yoe + yoe / 4 - yoe / 100) in
  let mp := (5 * doy + 2) / 153 in
  let d := doy - (153 * mp + 2) / 5 + 1 in
  let m := if mp <? 10 then mp + 3 else mp - 9 in
  let y := yoe + era * 400 in
  (if m <=? 2 then y + 1 else y, m, d).

(** Nanoseconds in a day: a timestamp counts nanoseconds since 1970. *)
Definition ns_per_day : Z := 86400000000000.

(** The timestamp of midnight of a date. *)
Definition ymd (y m d : Z) : Z := days_from_civil y m d * ns_per_day.

Definition digit_value (c : ascii) : option Z :=
  let n := nat_of_ascii c in
  if ((48 <=? n) && (n <=? 57))%nat then Some (Z.of_nat (n - 48)) else None.

Fixpoint digits_value (acc : Z) (s : str) : option Z :=
  match s with
  | [] => Some acc
  | c :: t =>
      match digit_value c with
      | Some v => digits_value (10 * acc + v) t
      | None => None
      end
  end.

(** The parser of the reference instance reads the empty text as [NaT] and
    a text [YYYY-MM-DD] that names a day of the calendar as its midnight;
    pandas reads more formats than these. *)
Definition iso_date (s : str) : option timestamp :=
  match s with
  | [] => Some NaT
  | [y1; y2; y3; y4; h1; m1; m2; h2; d1; d2] =>
      if chr_eqb h1 "-"%char && chr_eqb h2 "-"%char then
        match digits_value 0 [y1; y2; y3; y4], digits_value 0 [m1; m2],
              digits_value 0 [d1; d2] with
        | Some y, Some m, Some d =>
            let '(y', m', d') := civil_from_days (days_from_civil y m d) in
            if (y' =? y) && (m' =? m) && (d' =? d)
            then Some (Timestamp (ymd y m d)) else None
        | _, _, _ => None
        end
      else None
  | _ => None
  end.

Definition digit (n : Z) : ascii := ascii_of_nat (48 + Z.to_nat (n mod 10)).

(** [%Y-%m-%d] for the years 0 to 9999. *)
Definition format_iso (t : Z) : str :=
  let '(y, m, d) := civil_from_days (t / ns_per_day) in
  [digit (y / 1000); digit (y / 100); digit (y / 10); digit y; "-"%char;
   digit (m / 10); digit m; "-"%char; digit (d / 10); digit d].

(** [sum(...)] over a list of integers. *)
Definition total (l : list Z) : Z := fold_right Z.add 0 l.

(** The order [str_leb] as a relation. *)
Definition str_le (a b : str) : Prop := str_leb a b = true.

(** ** The specification's wording, for comparison with the code *)

(** The number of rows of a clean song. *)
Definition row_count (k : str) (df : DataFrame) : Z :=
  len (filter (fun r => cell_is k (clean_song r)) df).

(** The number of distinct shows (dates) at which a clean song appears. *)
Definition distinct_show_count (k : str) (df : DataFrame) : Z :=
  nunique Z.eqb (Dates (filter (fun r => cell_is k (clean_song r)) df)).

Fixpoint prefixb (p s : str) : bool :=
  match p, s with
  | [], _ => true
  | _ :: _, [] => false
  | x :: p', y :: s' => chr_eqb x y && prefixb p' s'
  end.

Fixpoint infixb (p s : str) : bool :=
  prefixb p s
  || match s with
     | [] => false
     | _ :: t => infixb p t
     end.

(** [s] contains [sub], letter case ignored. *)
Definition contains_ci (sub s : str) : bool :=
  infixb (map lower sub) (map lower s).

(** The same for a cell: a missing value contains no text, not even the
    empty one. *)
Definition cell_contains_ci (sub : str) (c : cell) : bool :=
  match c with
  | Some s => contains_ci sub s
  | None => false
  end.

(** An opening parenthesis with a closing one somewhere behind it. *)
Definition has_paren_pair (s : str) : Prop :=
  exists a m b, s = a ++ lparen :: m ++ rparen :: b.

(** A line of a file without missing values. *)
Definition line (d : Z) (v s : string) : CsvRow :=
  (Timestamp d, Some (py v), Some (py s)).

(** The example frame of the specification. *)
Definition example_csv : list CsvRow :=
  [line (ymd 2023 1 1) "VenueA" "Song1";
   line (ymd 2023 1 1) "VenueA" "Song2 (cover)";
   line (ymd 2023 6 1) "VenueB" "Song1"].

Definition example_frame : DataFrame := rows_of example_csv.

(** One show at which a song is played twice, once with an annotation. *)
Definition reprise_frame : DataFrame :=
  rows_of [line (ymd 2023 1 1) "VenueA" "Song1";
           line (ymd 2023 1 1) "VenueA" "Song1 (reprise)"].

(** Two rows, the first without a song text. *)
Definition missing_song_frame : DataFrame :=
  rows_of [(Timestamp (ymd 2023 1 1), Some (py "VenueA"), None);
           line (ymd 2023 6 1) "VenueB" "Song1"].

(** A frame whose second row has no date. *)
Definition undated_frame : DataFrame :=
  rows_of [line (ymd 2023 1 1) "VenueA" "Song1";
           (NaT, Some (py "VenueA"), Some (py "Song2"))].

(** * Properties *)

(** The two patterns of [_process_songs], compiled. *)
Example re_parse_cover : re_parse (py "cover") = Some cover_re.
Proof. reflexivity. Qed.

Example re_parse_special :
  re_parse (py "first time|dedicated|with Sadler|bluegrass") = Some special_re.
Proof. reflexivity. Qed.

(** ** Equality tests *)

Lemma chr_eqb_eq (a b : ascii) : chr_eqb a b = true <-> a = b.
Proof. apply Ascii.eqb_eq. Qed.

Lemma str_eqb_eq (a b : str) : str_eqb a b = true <-> a = b.
Proof.
  revert b; induction a as [|x a IH]; intros [|y b]; simpl;
    try (split; congruence).
  rewrite andb_true_iff, chr_eqb_eq, IH.
  split; [intros [-> ->]; reflexivity | intros E; inversion E; auto].
Qed.

Lemma str_eqb_refl (a : str) : str_eqb a a = true.
Proof. now apply str_eqb_eq. Qed.

(** ** Distinct values *)

Section Unique.
Context {A : Type} (eqb : A -> A -> bool).
Hypothesis eqb_eq : forall x y, eqb x y = true <-> x = y.

Lemma unique_In (l : list A) (x : A) : In x (unique eqb l) <-> In x l.
Proof.
  induction l as [|y l IH]; simpl; [tauto|].
  rewrite filter_In, IH, negb_true_iff.
  split.
  - intros [E | [H _]]; auto.
  - intros [E | H]; auto.
    destruct (eqb x y) eqn:E; [left; symmetry; now apply eqb_eq | auto].
Qed.

Lemma unique_NoDup (l : list A) : NoDup (unique eqb l).
Proof.
  induction l as [|y l IH]; simpl; constructor.
  - rewrite filter_In, negb_true_iff.
    intros [_ E]. assert (eqb y y = true) by now apply eqb_eq. congruence.
  - now apply NoDup_filter.
Qed.

Lemma sum_indicator_absent (x : A) (u : list A) :
  ~ In x u ->
  fold_right Z.add 0 (map (fun k => if eqb x k then 1 else 0) u) = 0.
Proof.
  induction u as [|k u IH]; intros Hx; simpl; [reflexivity|].
  destruct (eqb x k) eqn:E.
  - apply eqb_eq in E; subst. exfalso; apply Hx; now left.
  - rewrite IH; [reflexivity | intros H; apply Hx; now right].
Qed.

Lemma sum_indicator_present (x : A) (u : list A) :
  NoDup u -> In x u ->
  fold_right Z.add 0 (map (fun k => if eqb x k then 1 else 0) u) = 1.
Proof.
  induction 1 as [|k u Hk Hu IH]; intros Hx; [contradiction|]. simpl.
  destruct (eqb x k) eqn:E.
  - apply eqb_eq in E; subst. now rewrite sum_indicator_absent.
  - destruct Hx as [-> | Hx]; [|now rewrite IH].
    assert (eqb x x = true) by now apply eqb_eq. congruence.
Qed.

Lemma sum_pointwise (f g : A -> Z) (u : list A) :
  fold_right Z.add 0 (map (fun k => f k + g k) u)
  = fold_right Z.add 0 (map f u) + fold_right Z.add 0 (map g u).
Proof. induction u as [|k u IH]; simpl; lia. Qed.

(** Counting the rows of each distinct key counts every row once. *)
Lemma sum_counts_NoDup (key : list A) (u : list A) :
  NoDup u -> (forall x, In x key -> In x u) ->
  fold_right Z.add 0 (map (fun k => len (filter (fun x => eqb x k) key)) u)
  = len key.
Proof.
  intros Hu. induction key as [|x key IH]; intros Hin.
  - simpl. clear Hu Hin. induction u; simpl; auto.
  - rewrite (map_ext _ (fun k => (if eqb x k then 1 else 0)
                                 + len (filter (fun y => eqb y k) key))).
    + rewrite sum_pointwise, IH, sum_indicator_present; auto.
      * unfold len; simpl length; lia.
      * apply Hin; now left.
      * intros y H; apply Hin; now right.
    + intros k. unfold len. simpl. destruct (eqb x k); simpl length; lia.
Qed.

Lemma sum_counts_unique (key : list A) :
  fold_right Z.add 0
    (map (fun k => len (filter (fun x => eqb x k) key)) (unique eqb key))
  = len key.
Proof.
  apply sum_counts_NoDup; [apply unique_NoDup | intros x; apply unique_In].
Qed.
End Unique.

(** ** Positional indexing *)

Section Take.
Context {A : Type}.
Implicit Types (l : list A) (idx : list nat).

Lemma take_app l idx idx' : take l (idx ++ idx') = take l idx ++ take l idx'.
Proof. apply flat_map_app. Qed.

Lemma take_cons l i idx : take l (i :: idx) = take l [i] ++ take l idx.
Proof. exact (take_app l [i] idx). Qed.

Lemma take_cons_valid l i idx x :
  nth_error l i = Some x -> take l (i :: idx) = x :: take l idx.
Proof. intros E. unfold take. simpl. now rewrite E. Qed.

Lemma take_rev l idx : take l (rev idx) = rev (take l idx).
Proof.
  induction idx as [|i idx IH]; [reflexivity|].
  rewrite (take_cons l i idx), rev_app_distr, <- IH.
  change (rev (i :: idx)) with (rev idx ++ [i]).
  rewrite take_app. f_equal.
  unfold take; simpl. now destruct (nth_error l i).
Qed.

Lemma take_seq_from (p l : list A) :
  take (p ++ l) (seq (length p) (length l)) = l.
Proof.
  revert p; induction l as [|x l IH]; intros p; [reflexivity|].
  simpl length. simpl seq.
  rewrite (take_cons_valid _ _ _ x).
  - f_equal. specialize (IH (p ++ [x])).
    rewrite <- app_assoc, length_app, Nat.add_1_r in IH. exact IH.
  - rewrite nth_error_app2, Nat.sub_diag by lia. reflexivity.
Qed.

Lemma take_seq_all l : take l (seq 0 (length l)) = l.
Proof. exact (take_seq_from [] l). Qed.

Lemma take_Permutation l idx idx' :
  Permutation idx idx' -> Permutation (take l idx) (take l idx').
Proof. intros P. unfold take. now apply Permutation_flat_map. Qed.

Lemma nth_error_take l idx j :
  Forall (fun i => (i < length l)%nat) idx ->
  nth_error (take l idx) j
  = match nth_error idx j with
    | Some i => nth_error l i
    | None => None
    end.
Proof.
  intros H; revert j; induction H as [|i idx Hi _ IH]; intros j.
  - now destruct j.
  - destruct (nth_error l i) as [x|] eqn:E.
    + rewrite (take_cons_valid _ _ _ x E).
      destruct j; simpl; [now rewrite E | apply IH].
    + apply nth_error_None in E. lia.
Qed.

End Take.

Lemma take_map {A B : Type} (f : A -> B) (l : list A) (idx : list nat) :
  map f (take l idx) = take (map f l) idx.
Proof.
  induction idx as [|i idx IH]; [reflexivity|].
  rewrite (take_cons l i idx), (take_cons (map f l) i idx), map_app, IH.
  f_equal.
  unfold take; simpl. rewrite nth_error_map.
  now destruct (nth_error l i).
Qed.

(** [l[idx][js]] is [l[idx[js]]]. *)
Lemma take_take {A : Type} (l : list A) (idx js : list nat) :
  Forall (fun i => (i < length l)%nat) idx ->
  take (take l idx) js = take l (take idx js).
Proof.
  intros H. induction js as [|j js IH]; [reflexivity|].
  rewrite (take_cons _ j js), (take_cons idx j js), take_app, IH. f_equal.
  unfold take at 1 4. simpl. rewrite nth_error_take by assumption.
  destruct (nth_error idx j) as [i|]; simpl; [|reflexivity].
  unfold take; simpl. reflexivity.
Qed.

Lemma take_seq_id (n : nat) (idx : list nat) :
  Forall (fun i => (i < n)%nat) idx -> take (seq 0 n) idx = idx.
Proof.
  induction 1 as [|i idx Hi _ IH]; [reflexivity|].
  rewrite (take_cons_valid _ _ _ i), IH; [reflexivity|].
  rewrite nth_error_nth' with (d := O) by (rewrite length_seq; lia).
  now rewrite seq_nth.
Qed.

Lemma Permutation_seq_lt (n : nat) (idx : list nat) :
  Permutation idx (seq 0 n) -> Forall (fun i => (i < n)%nat) idx.
Proof.
  intros P. apply Forall_forall. intros i H.
  apply (Permutation_in _ P), in_seq in H. lia.
Qed.

(** ** Sorted lists *)

Lemma StronglySorted_map {A B : Type} (R : B -> B -> Prop) (f : A -> B)
    (l : list A) :
  StronglySorted R (map f l) <-> StronglySorted (fun a b => R (f a) (f b)) l.
Proof.
  induction l as [|x l IH]; simpl.
  - split; constructor.
  - split; intros H; inversion H; subst; constructor;
      try (now apply IH); rewrite Forall_map in *; assumption.
Qed.

Lemma StronglySorted_app_one {A : Type} (R : A -> A -> Prop) (l : list A)
    (x : A) :
  StronglySorted R l -> Forall (fun y => R y x) l ->
  StronglySorted R (l ++ [x]).
Proof.
  induction 1 as [|y l Hl IH Hy]; intros Hx; simpl.
  - repeat constructor.
  - inversion Hx; subst. constructor; [now apply IH|].
    apply Forall_app; split; auto.
Qed.

(** Reversing an ascending list gives a descending one. *)
Lemma StronglySorted_rev {A : Type} (R : A -> A -> Prop) (l : list A) :
  StronglySorted R l -> StronglySorted (fun a b => R b a) (rev l).
Proof.
  induction 1 as [|x l Hl IH Hx]; simpl; [constructor|].
  apply StronglySorted_app_one; [assumption|].
  apply Forall_forall. intros y Hy. apply in_rev in Hy.
  rewrite Forall_forall in Hx. now apply Hx.
Qed.

Lemma Sorted_le_strong (l : list Z) : Sorted Z.le l -> StronglySorted Z.le l.
Proof. apply Sorted_StronglySorted. intros x y z; apply Z.le_trans. Qed.

(** A list sorted on a key with no two equal keys is the only sorted
    rearrangement of itself. *)
Lemma sorted_rearrangement_unique {A : Type} (key : A -> Z) (l l' : list A) :
  Permutation l' l ->
  StronglySorted (fun a b => key a < key b) l ->
  StronglySorted (fun a b => key a <= key b) l' ->
  l' = l.
Proof.
  revert l'; induction l as [|x l IH]; intros l' P Hl Hl'.
  - apply Permutation_sym in P. now apply Permutation_nil.
  - destruct l' as [|y l'].
    + apply Permutation_nil in P. discriminate.
    + inversion Hl as [|? ? Hs Hx]; subst.
      inversion Hl' as [|? ? Hs' Hy]; subst.
      rewrite Forall_forall in Hx, Hy.
      assert (E : y = x).
      { assert (In y (x :: l)) as [E | Hin]
          by (apply (Permutation_in _ P); now left); [now subst|].
        assert (In x (y :: l')) as [E | Hin']
          by (apply (Permutation_in _ (Permutation_sym P)); now left);
          [now subst|].
        specialize (Hx _ Hin). specialize (Hy _ Hin'). lia. }
      subst. f_equal. apply IH; auto.
      now apply Permutation_cons_inv in P.
Qed.

(** ** Sorting a frame *)

Section Sorting.
Context `{Pandas}.

Lemma argsort_lt (ks : list Z) :
  Forall (fun i => (i < length ks)%nat) (argsort ks).
Proof. apply Permutation_seq_lt, argsort_perm. Qed.

Lemma nargsort_perm (ks : list Z) (asc : bool) :
  Permutation (nargsort ks asc) (seq 0 (length ks)).
Proof.
  unfold nargsort. destruct asc.
  - rewrite take_seq_id by apply argsort_lt. apply argsort_perm.
  - rewrite <- Permutation_rev.
    rewrite (take_Permutation _ _ _ (argsort_perm (rev ks))).
    replace (length (rev ks)) with (length (rev (seq 0 (length ks))))
      by now rewrite !length_rev, length_seq.
    rewrite take_seq_all. symmetry. apply Permutation_rev.
Qed.

(** The keys read along [nargsort] ascend, or descend. *)
Lemma nargsort_ascending (ks : list Z) :
  StronglySorted Z.le (take ks (nargsort ks true)).
Proof.
  unfold nargsort. rewrite take_seq_id by apply argsort_lt.
  apply Sorted_le_strong, argsort_sorted.
Qed.

Lemma nargsort_descending (ks : list Z) :
  StronglySorted (fun a b => b <= a) (take ks (nargsort ks false)).
Proof.
  unfold nargsort. rewrite take_rev. apply StronglySorted_rev.
  rewrite <- take_take.
  - rewrite take_rev, take_seq_all.
    apply Sorted_le_strong, argsort_sorted.
  - apply Forall_forall. intros i Hi. apply in_rev, in_seq in Hi. lia.
Qed.

Lemma sort_values_perm {A : Type} (key : A -> Z) (asc : bool) (df : list A) :
  Permutation (sort_values key asc df) df.
Proof.
  unfold sort_values.
  rewrite (take_Permutation _ _ _ (nargsort_perm (map key df) asc)).
  now rewrite length_map, take_seq_all.
Qed.

Lemma sort_values_ascending {A : Type} (key : A -> Z) (df : list A) :
  StronglySorted (fun a b => key a <= key b) (sort_values key true df).
Proof.
  apply (StronglySorted_map Z.le key). unfold sort_values.
  rewrite take_map. apply nargsort_ascending.
Qed.

Lemma sort_values_descending {A : Type} (key : A -> Z) (df : list A) :
  StronglySorted (fun a b => key b <= key a) (sort_values key false df).
Proof.
  apply (StronglySorted_map (fun a b => b <= a) key). unfold sort_values.
  rewrite take_map. apply nargsort_descending.
Qed.

(** A frame already in strictly descending order of the key is left as
    it is, whatever [argsort] does with equal keys. *)
Lemma sort_values_descending_fixed {A : Type} (key : A -> Z) (df : list A) :
  StronglySorted (fun a b => key b < key a) df ->
  sort_values key false df = df.
Proof.
  intros Hs.
  apply (sorted_rearrangement_unique (fun a => - key a)).
  - apply sort_values_perm.
  - eapply StronglySorted_map with (f := fun a => a).
    rewrite map_id. revert Hs. apply StronglySorted_ind; constructor; auto.
    eapply Forall_impl; [|eassumption]. simpl; intros; lia.
  - generalize (sort_values_descending key df).
    apply StronglySorted_ind; constructor; auto.
    eapply Forall_impl; [|eassumption]. simpl; intros; lia.
Qed.
End Sorting.

(** ** The reference sorter meets the contract of [argsort] *)

Section StableArgsort.
Variable ks : list Z.

Let key (i : nat) : Z := nth i ks 0.

Lemma insert_pos_perm (i : nat) (l : list nat) :
  Permutation (insert_pos ks i l) (i :: l).
Proof.
  induction l as [|j l IH]; simpl; [reflexivity|].
  destruct (nth i ks 0 <? nth j ks 0); [reflexivity|].
  rewrite IH. apply perm_swap.
Qed.

Lemma insert_pos_sorted (i : nat) (l : list nat) :
  StronglySorted (fun a b => key a <= key b) l ->
  StronglySorted (fun a b => key a <= key b) (insert_pos ks i l).
Proof.
  induction 1 as [|j l Hl IH Hj]; simpl.
  - repeat constructor.
  - destruct (Z.ltb_spec (nth i ks 0) (nth j ks 0)) as [Hlt | Hge].
    + constructor; [now constructor|].
      constructor; [unfold key; lia|].
      eapply Forall_impl; [|exact Hj]. unfold key; simpl; intros; lia.
    + constructor; [assumption|].
      apply Forall_forall. intros a Ha.
      apply (Permutation_in _ (insert_pos_perm i l)) in Ha.
      destruct Ha as [<- | Ha]; [exact Hge|].
      rewrite Forall_forall in Hj. now apply Hj.
Qed.

Lemma insert_all_perm (ps acc : list nat) :
  Permutation (fold_left (fun acc i => insert_pos ks i acc) ps acc) (ps ++ acc).
Proof.
  revert acc; induction ps as [|i ps IH]; intros acc; simpl; [reflexivity|].
  rewrite IH, insert_pos_perm. symmetry. apply Permutation_middle.
Qed.

Lemma insert_all_sorted (ps acc : list nat) :
  StronglySorted (fun a b => key a <= key b) acc ->
  StronglySorted (fun a b => key a <= key b)
    (fold_left (fun acc i => insert_pos ks i acc) ps acc).
Proof.
  revert acc; induction ps as [|i ps IH]; intros acc Hacc; simpl; auto.
  apply IH, insert_pos_sorted, Hacc.
Qed.

Lemma take_nth (idx : list nat) :
  Forall (fun i => (i < length ks)%nat) idx -> take ks idx = map key idx.
Proof.
  induction 1 as [|i idx Hi _ IH]; [reflexivity|].
  rewrite (take_cons_valid _ _ _ (key i)), IH; [reflexivity|].
  now apply nth_error_nth'.
Qed.

Lemma stable_argsort_perm :
  Permutation (stable_argsort ks) (seq 0 (length ks)).
Proof.
  unfold stable_argsort. rewrite insert_all_perm. now rewrite app_nil_r.
Qed.

Lemma stable_argsort_sorted : Sorted Z.le (take ks (stable_argsort ks)).
Proof.
  rewrite take_nth by apply Permutation_seq_lt, stable_argsort_perm.
  apply StronglySorted_Sorted, StronglySorted_map.
  apply insert_all_sorted. constructor.
Qed.

Lemma reversed_argsort_perm :
  Permutation (reversed_argsort ks) (seq 0 (length ks)).
Proof.
  unfold reversed_argsort. rewrite insert_all_perm, app_nil_r.
  symmetry. apply Permutation_rev.
Qed.

Lemma reversed_argsort_sorted : Sorted Z.le (take ks (reversed_argsort ks)).
Proof.
  rewrite take_nth by apply Permutation_seq_lt, reversed_argsort_perm.
  apply StronglySorted_Sorted, StronglySorted_map.
  apply insert_all_sorted. constructor.
Qed.
End StableArgsort.

(** The reference parameters: ISO dates, their formatter and the stable
    sorter. *)
Definition reference_pandas : Pandas := {|
  to_datetime := iso_date;
  strftime := format_iso;
  argsort := stable_argsort;
  argsort_perm := stable_argsort_perm;
  argsort_sorted := stable_argsort_sorted
|}.

(** The same parser and formatter with the other sorter. *)
Definition reversed_pandas : Pandas := {|
  to_datetime := iso_date;
  strftime := format_iso;
  argsort := reversed_argsort;
  argsort_perm := reversed_argsort_perm;
  argsort_sorted := reversed_argsort_sorted
|}.


(** ** Missing values *)

Lemma cell_eqb_eq (a b : cell) : cell_eqb a b = true <-> a = b.
Proof.
  destruct a as [x|], b as [y|]; simpl; try (split; congruence).
  rewrite str_eqb_eq. split; congruence.
Qed.

Lemma ts_eqb_eq (a b : timestamp) : ts_eqb a b = true <-> a = b.
Proof.
  destruct a as [x|], b as [y|]; simpl; try (split; congruence).
  rewrite Z.eqb_eq. split; congruence.
Qed.

Lemma cell_is_true (k : str) (c : cell) : cell_is k c = true <-> c = Some k.
Proof.
  destruct c as [s|]; simpl; [|split; discriminate].
  rewrite str_eqb_eq. split; congruence.
Qed.

Lemma date_is_true (d : Z) (t : timestamp) :
  date_is d t = true <-> t = Timestamp d.
Proof.
  destruct t as [z|]; simpl; [|split; discriminate].
  rewrite Z.eqb_eq. split; congruence.
Qed.

Lemma dropna_In {A : Type} (l : list (option A)) (x : A) :
  In x (dropna l) <-> In (Some x) l.
Proof.
  unfold dropna. rewrite in_flat_map. split.
  - intros ([y|] & Hy & Hx); [|contradiction].
    destruct Hx as [<- | []]. exact Hy.
  - intros Hx. exists (Some x). split; [assumption | now left].
Qed.

Lemma dropna_length_le {A : Type} (l : list (option A)) :
  (length (dropna l) <= length l)%nat.
Proof.
  induction l as [|[x|] l IH]; simpl; lia.
Qed.

Lemma dropna_Permutation {A : Type} (l l' : list (option A)) :
  Permutation l l' -> Permutation (dropna l) (dropna l').
Proof. intros P. unfold dropna. now apply Permutation_flat_map. Qed.

Lemma dropna_map_Some {A : Type} (l : list A) : dropna (map Some l) = l.
Proof. induction l as [|x l IH]; simpl; [reflexivity | now rewrite IH]. Qed.

Lemma Dates_In (df : DataFrame) (d : Z) :
  In d (Dates df) <-> exists r, In r df /\ Date r = Timestamp d.
Proof.
  unfold Dates. rewrite dropna_In, in_map_iff. split.
  - intros (r & E & Hr). exists r. split; [assumption|].
    destruct (Date r); simpl in E; congruence.
  - intros (r & Hr & E). exists r. split; [now rewrite E | assumption].
Qed.

Lemma Dates_Permutation (df df' : DataFrame) :
  Permutation df df' -> Permutation (Dates df) (Dates df').
Proof.
  intros P. unfold Dates. now apply dropna_Permutation, Permutation_map.
Qed.

Lemma Dates_length_le (df : DataFrame) : len (Dates df) <= len df.
Proof.
  unfold Dates, len.
  pose proof (dropna_length_le (map (fun r => ts_value (Date r)) df)) as H.
  rewrite length_map in H. lia.
Qed.

(** ** Sorting with missing keys *)

(** A list falls into the elements a test accepts and those it rejects. *)
Lemma filter_split_Permutation {A : Type} (p : A -> bool) (l : list A) :
  Permutation (filter p l ++ filter (fun a => negb (p a)) l) l.
Proof.
  induction l as [|a l IH]; simpl; [constructor|].
  destruct (p a); simpl.
  - now constructor.
  - rewrite <- Permutation_middle. now constructor.
Qed.

Definition notna {A : Type} (c : option A) : bool :=
  match c with
  | Some _ => true
  | None => false
  end.

Section MissingKeys.
Context {A : Type} (key : A -> option Z).

Lemma take_notna_from (p l : list A) :
  take (p ++ l) (notna_idx (length p) (map key l))
  = filter (fun a => notna (key a)) l.
Proof.
  revert p; induction l as [|x l IH]; intros p; [reflexivity|].
  specialize (IH (p ++ [x])).
  rewrite <- app_assoc, length_app, Nat.add_1_r in IH.
  cbn [map notna_idx filter app] in *.
  destruct (key x) as [z|]; cbn [notna negb]; [|exact IH].
  rewrite (take_cons_valid _ _ _ x), IH; [reflexivity|].
  rewrite nth_error_app2, Nat.sub_diag by lia. reflexivity.
Qed.

Lemma take_isna_from (p l : list A) :
  take (p ++ l) (isna_idx (length p) (map key l))
  = filter (fun a => negb (notna (key a))) l.
Proof.
  revert p; induction l as [|x l IH]; intros p; [reflexivity|].
  specialize (IH (p ++ [x])).
  rewrite <- app_assoc, length_app, Nat.add_1_r in IH.
  cbn [map isna_idx filter app] in *.
  destruct (key x) as [z|]; cbn [notna negb]; [exact IH|].
  rewrite (take_cons_valid _ _ _ x), IH; [reflexivity|].
  rewrite nth_error_app2, Nat.sub_diag by lia. reflexivity.
Qed.

Lemma notna_idx_lt (i : nat) (ks : list (option Z)) :
  Forall (fun j => (j < i + length ks)%nat) (notna_idx i ks).
Proof.
  revert i; induction ks as [|[z|] ks IH]; intros i; simpl.
  - constructor.
  - constructor; [lia|]. eapply Forall_impl; [|apply (IH (S i))].
    simpl; intros; lia.
  - eapply Forall_impl; [|apply (IH (S i))]. simpl; intros; lia.
Qed.

Lemma dropna_keys (l : list A) :
  map key (filter (fun a => notna (key a)) l) = map Some (dropna (map key l)).
Proof.
  induction l as [|x l IH]; [reflexivity|]. simpl.
  destruct (key x) as [z|] eqn:E; simpl; [|exact IH].
  now rewrite E, IH.
Qed.
End MissingKeys.

(** The order of [sort_values] on a key that may be missing: ascending on
    the keys that are there, rows without a key behind all others. *)
Definition na_last_le (a b : option Z) : Prop :=
  match a, b with
  | Some x, Some y => x <= y
  | _, None => True
  | None, Some _ => False
  end.

Section SortingNa.
Context `{Pandas}.

(** [sort_values] on a key that may be missing sorts the rows that have the
    key and appends the others in row order. *)
Lemma sort_values_na_parts {A : Type} (key : A -> option Z) (df : list A) :
  sort_values_na key df
  = take (filter (fun a => notna (key a)) df)
         (argsort (dropna (map key df)))
    ++ filter (fun a => negb (notna (key a))) df.
Proof.
  unfold sort_values_na, nargsort_na. rewrite take_app.
  pose proof (take_isna_from key [] df) as Hi.
  pose proof (take_notna_from key [] df) as Hn.
  cbn [app length] in Hi, Hn. rewrite Hi. f_equal.
  rewrite <- take_take.
  - now rewrite Hn.
  - pose proof (notna_idx_lt 0 (map key df)) as Hl.
    rewrite length_map in Hl. exact Hl.
Qed.

Lemma present_rows_length {A : Type} (key : A -> option Z) (df : list A) :
  length (dropna (map key df)) = length (filter (fun a => notna (key a)) df).
Proof.
  rewrite <- (length_map Some), <- dropna_keys. apply length_map.
Qed.

Lemma sort_values_na_perm {A : Type} (key : A -> option Z) (df : list A) :
  Permutation (sort_values_na key df) df.
Proof.
  rewrite sort_values_na_parts.
  rewrite (take_Permutation _ _ _ (argsort_perm (dropna (map key df)))).
  rewrite present_rows_length, take_seq_all.
  apply filter_split_Permutation.
Qed.

Lemma sort_values_na_sorted {A : Type} (key : A -> option Z) (df : list A) :
  StronglySorted (fun a b => na_last_le (key a) (key b))
    (sort_values_na key df).
Proof.
  rewrite sort_values_na_parts.
  set (F := filter (fun a => notna (key a)) df).
  set (J := argsort (dropna (map key df))).
  assert (HS : StronglySorted (fun a b => na_last_le (key a) (key b))
                 (take F J)).
  { apply (StronglySorted_map na_last_le key).
    rewrite take_map. unfold F. rewrite dropna_keys, <- take_map.
    apply (StronglySorted_map na_last_le Some).
    pose proof (Sorted_le_strong _ (argsort_sorted (dropna (map key df))))
      as Hs.
    fold J in Hs. exact Hs. }
  assert (HN : Forall (fun b => key b = None)
                 (filter (fun a => negb (notna (key a))) df)).
  { apply Forall_forall. intros b Hb. apply filter_In in Hb.
    destruct Hb as [_ Hb]. now destruct (key b). }
  induction HS as [|x l Hl IH Hx]; simpl.
  - induction HN as [|b l Hb Hl IH]; constructor; auto.
    apply Forall_forall. intros c Hc. rewrite Forall_forall in Hl.
    rewrite Hb, (Hl c Hc). exact I.
  - constructor; [exact IH|]. apply Forall_app. split; [exact Hx|].
    eapply Forall_impl; [|exact HN]. simpl. intros b ->.
    now destruct (key x).
Qed.
End SortingNa.

(** ** The ranking of songs *)

Lemma firstn_In {A : Type} (n : nat) (l : list A) (x : A) :
  In x (firstn n l) -> In x l.
Proof.
  intros Hx. rewrite <- (firstn_skipn n l). apply in_or_app. now left.
Qed.

Lemma unique_length_le {A : Type} (eqb : A -> A -> bool) (l : list A) :
  (length (unique eqb l) <= length l)%nat.
Proof.
  induction l as [|x l IH]; simpl; [lia|].
  apply le_n_S. etransitivity; [apply filter_length_le | exact IH].
Qed.

Section TopSongs.
Context `{Pandas}.

(** What the code computes: each entry of the grouped table carries the
    number of rows of its clean song, and that number over the number of
    distinct dates as a percentage. *)
Lemma song_counts_entries (df : DataFrame) (e : SongCount) :
  In e (song_counts df) ->
  play_count e = row_count (song e) df
  /\ percentage e
     = round1 (PrimFloat.mul
                 (PrimFloat.div (to_float (play_count e))
                    (to_float (nunique Z.eqb (Dates df))))
                 100%float).
Proof.
  unfold song_counts. rewrite in_map_iff. intros (k & <- & _). now simpl.
Qed.

Lemma get_top_songs_entries (n : option Z) (df : DataFrame) :
  exists out, get_top_songs n df = Ok out
    /\ forall e, In e out -> play_count e = row_count (song e) df.
Proof.
  eexists; split; [reflexivity|]. intros e He.
  apply song_counts_entries.
  apply (Permutation_in _ (sort_values_perm play_count false _)).
  unfold head in He. destruct (0 <=? _); now apply firstn_In in He.
Qed.

(** The rows of a song are at least as many as its shows, and more when
    the song comes twice in a show. *)
Lemma distinct_show_count_le (k : str) (df : DataFrame) :
  distinct_show_count k df <= row_count k df.
Proof.
  unfold distinct_show_count, row_count, nunique.
  etransitivity; [|apply Dates_length_le].
  unfold len. apply Nat2Z.inj_le, unique_length_le.
Qed.

(** C1, evaluated on [reprise_frame]: the song is played at one show, in two
    rows; [get_top_songs] reports a play count of 2, the row count, and 200
    percent, where the claim asks for 1, the number of distinct dates. *)
Theorem get_top_songs_counts_rows :
  get_top_songs None reprise_frame
  = Ok [ {| song := py "Song1"; play_count := 2; percentage := 200%float |} ]
  /\ row_count (py "Song1") reprise_frame = 2
  /\ distinct_show_count (py "Song1") reprise_frame = 1.
Proof.
  split; [|split; reflexivity].
  unfold get_top_songs.
  replace (song_counts reprise_frame)
    with [ {| song := py "Song1"; play_count := 2;
              percentage := 200%float |} ]
    by (vm_compute; reflexivity).
  rewrite sort_values_descending_fixed by (repeat constructor).
  reflexivity.
Qed.

(** C4: the worked example of the specification. *)
Theorem example_frame_queries :
  get_stats example_frame
  = Ok {| total_shows := 2; total_songs := 3; unique_songs := 2;
          total_venues := 2;
          first_show := strftime (ymd 2023 1 1);
          last_show := strftime (ymd 2023 6 1);
          covers := 1; special_performances := 0 |}
  /\ get_top_songs (Some 1) example_frame
     = Ok [ {| song := py "Song1"; play_count := 2;
               percentage := 100%float |} ]
  /\ get_rare_songs example_frame = Ok [Some (py "Song2 (cover)")].
Proof.
  split; [reflexivity|]. split; [|reflexivity].
  unfold get_top_songs.
  replace (song_counts example_frame)
    with [ {| song := py "Song1"; play_count := 2;
              percentage := 100%float |};
           {| song := py "Song2"; play_count := 1;
              percentage := 50%float |} ]
    by (vm_compute; reflexivity).
  rewrite sort_values_descending_fixed
    by (repeat constructor; simpl; lia).
  reflexivity.
Qed.

(** C2, as the code has it: the method never raises. A positive [n] gives
    the first [n] entries of the ranking, at most [n] of them; zero gives the
    empty list; a negative [n] gives the ranking without its last [-n]
    entries; a call without [n] is a call with 10. The ranking is the
    grouped table rearranged in descending order of the play count. *)
Theorem get_top_songs_head (df : DataFrame) (n : Z) :
  let ranking := sort_values play_count false (song_counts df) in
  Permutation ranking (song_counts df)
  /\ StronglySorted (fun a b => play_count b <= play_count a) ranking
  /\ (0 < n ->
      get_top_songs (Some n) df = Ok (firstn (Z.to_nat n) ranking)
      /\ len (firstn (Z.to_nat n) ranking) <= n)
  /\ get_top_songs (Some 0) df = Ok []
  /\ (n < 0 ->
      get_top_songs (Some n) df
      = Ok (firstn (length ranking - Z.to_nat (- n)) ranking))
  /\ get_top_songs None df = get_top_songs (Some 10) df.
Proof.
  intros ranking. split; [apply sort_values_perm|].
  split; [apply sort_values_descending|].
  unfold get_top_songs, head. fold ranking.
  split; [|split; [reflexivity|split; [|reflexivity]]].
  - intros Hn. destruct (Z.leb_spec 0 n); [|lia]. split; [reflexivity|].
    unfold len. rewrite length_firstn. lia.
  - intros Hn. destruct (Z.leb_spec 0 n); [lia|reflexivity].
Qed.
End TopSongs.

Lemma get_top_songs_head_witness :
  @get_top_songs reference_pandas (Some 1) example_frame
  = Ok (firstn 1 (@sort_values reference_pandas _ play_count false
                    (song_counts example_frame)))
  /\ len (firstn 1 (@sort_values reference_pandas _ play_count false
                      (song_counts example_frame))) <= 1.
Proof.
  apply (@get_top_songs_head reference_pandas example_frame 1). reflexivity.
Defined.

(** C2 as stated fails: with [n = 0] the method returns the empty list, it
    does not raise. *)
Lemma get_top_songs_zero_returns :
  @get_top_songs reference_pandas (Some 0) example_frame = Ok []
  /\ @get_top_songs reference_pandas (Some (-1)) example_frame
     = Ok [ {| song := py "Song1"; play_count := 2;
               percentage := 100%float |} ].
Proof. split; reflexivity. Qed.

(** ** Overall statistics *)

(** The constructor reads the example of the specification into
    [example_frame], and the empty file into the empty frame. *)
Example init_example : __init__ example_csv = Ok example_frame.
Proof. reflexivity. Qed.

(** The reference instance on the example frame: the date range reads as
    the specification writes its dates. *)
Example example_frame_date_range :
  @get_stats reference_pandas example_frame
  = Ok {| total_shows := 2; total_songs := 3; unique_songs := 2;
          total_venues := 2;
          first_show := py "2023-01-01"; last_show := py "2023-06-01";
          covers := 1; special_performances := 0 |}.
Proof. reflexivity. Qed.

Lemma count_true_map {A : Type} (f : A -> bool) (l : list A) :
  count_true (map f l) = len (filter f l).
Proof.
  unfold count_true, len. f_equal.
  induction l as [|x l IH]; simpl; auto.
  destruct (f x); simpl; now rewrite IH.
Qed.

Section Stats.
Context `{Pandas}.

(** C3, evaluated on the empty file: the constructor returns the empty
    frame and [get_stats] raises on it, because the minimum of an empty
    date column is [NaT] and [NaT] has no [strftime]; the claim asks for a
    record of zero counts. *)
Theorem get_stats_empty_raises :
  __init__ [] = Ok [] /\ get_stats [] = Raise ValueError.
Proof. split; reflexivity. Qed.

(** On a frame with a date [get_stats] returns, and the counts are those
    of the specification over the values that are not missing. *)
Lemma get_stats_returns (df : DataFrame) :
  Dates df <> [] ->
  exists st, get_stats df = Ok st
    /\ total_shows st = nunique Z.eqb (Dates df)
    /\ total_songs st = len df
    /\ unique_songs st = nunique str_eqb (dropna (map clean_song df))
    /\ total_venues st = nunique str_eqb (dropna (map Venue df))
    /\ covers st = len (filter is_cover df)
    /\ special_performances st = len (filter is_special df).
Proof.
  intros Hne. unfold get_stats.
  destruct (Dates df) as [|d ds] eqn:E; [contradiction|].
  eexists; split; [reflexivity|].
  repeat split; apply count_true_map.
Qed.
End Stats.

(** ** The export *)

Lemma filter_map_len {A B : Type} (f : A -> B) (p : B -> bool) (l : list A) :
  len (filter p (map f l)) = len (filter (fun x => p (f x)) l).
Proof.
  unfold len. f_equal. induction l as [|x l IH]; simpl; auto.
  destruct (p (f x)); simpl; now rewrite IH.
Qed.

(** The rows of the frame, counted date by date, [NaT] being one date. *)
Lemma rows_per_date (df : DataFrame) :
  total (map (fun t => len (filter (fun r => ts_eqb (Date r) t) df))
             (unique ts_eqb (map Date df)))
  = len df.
Proof.
  unfold total.
  rewrite (map_ext _ (fun t => len (filter (fun x => ts_eqb x t)
                                      (map Date df))))
    by (intros t; now rewrite filter_map_len).
  rewrite (sum_counts_unique ts_eqb ts_eqb_eq).
  unfold len. now rewrite length_map.
Qed.

Lemma filter_map_swap {A B : Type} (f : A -> B) (p : B -> bool) (l : list A) :
  filter p (map f l) = map f (filter (fun x => p (f x)) l).
Proof.
  induction l as [|x l IH]; simpl; [reflexivity|].
  destruct (p (f x)); simpl; now rewrite IH.
Qed.

(** Distinct values under a one-to-one renaming. *)
Lemma unique_map {A B : Type} (eqa : A -> A -> bool) (eqb : B -> B -> bool)
    (f : A -> B) (l : list A) :
  (forall x y, eqb (f x) (f y) = eqa x y) ->
  unique eqb (map f l) = map f (unique eqa l).
Proof.
  intros Hf. induction l as [|x l IH]; simpl; [reflexivity|].
  rewrite IH, filter_map_swap. f_equal. f_equal.
  apply filter_ext. intros y. now rewrite Hf.
Qed.

(** A frame in which no date is missing. *)
Definition all_dated (df : DataFrame) : Prop :=
  forall r, In r df -> Date r <> NaT.

Lemma all_dated_Dates (df : DataFrame) :
  all_dated df -> map Date df = map Timestamp (Dates df).
Proof.
  unfold all_dated, Dates. induction df as [|r df IH]; intros Hd.
  - reflexivity.
  - simpl. destruct (Date r) as [d|] eqn:E.
    + simpl. f_equal. apply IH. intros r' Hr'. apply Hd. now right.
    + exfalso. apply (Hd r); [now left | exact E].
Qed.

Lemma all_dated_nunique (df : DataFrame) :
  all_dated df ->
  nunique Z.eqb (Dates df) = len (unique ts_eqb (map Date df)).
Proof.
  intros Hd. rewrite (all_dated_Dates df Hd).
  rewrite (unique_map Z.eqb ts_eqb Timestamp) by reflexivity.
  unfold nunique, len. now rewrite length_map.
Qed.

(** What one entry of the exported [shows] list says about its date. *)
Definition show_of_date `{Pandas} (df : DataFrame) (t : timestamp) (sh : Show)
    : Prop :=
  exists d,
    t = Timestamp d
    /\ date sh = strftime d
    /\ songs sh = map Song (filter (fun r => date_is d (Date r)) df)
    /\ song_count sh = len (songs sh)
    /\ 1 <= song_count sh
    /\ exists r rest,
         filter (fun r => date_is d (Date r)) df = r :: rest
         /\ show_venue sh = Venue r.

Section Exporter.
Context `{Pandas}.

(** Every date of the frame has a first row, so a show fails to export only
    when its date is [NaT], which has no [strftime]. *)
Lemma export_shows_rows (df : DataFrame) (ts : list timestamp) :
  (forall t, In t ts -> In t (map Date df)) ->
  match mapM (export_show df) ts with
  | Ok shs => ~ In NaT ts /\ Forall2 (show_of_date df) ts shs
  | Raise e => e = ValueError /\ In NaT ts
  end.
Proof.
  induction ts as [|t ts IH]; intros Hin.
  - split; [intros [] | constructor].
  - specialize (IH (fun t' H' => Hin t' (or_intror H'))).
    simpl mapM. destruct t as [d|].
    + assert (Hd : In (Timestamp d) (map Date df)) by (apply Hin; now left).
      apply in_map_iff in Hd. destruct Hd as (r & Hr & Hrin).
      assert (Hf : In r (filter (fun r => date_is d (Date r)) df))
        by (apply filter_In; split; [assumption | now apply date_is_true]).
      unfold export_show at 1. cbn [strftime_ymd bind date_eq].
      destruct (filter (fun r => date_is d (Date r)) df) as [|r0 rows] eqn:Ef;
        [contradiction|].
      cbn [map iloc0 bind].
      destruct (mapM (export_show df) ts) as [shs|e]; cbn [bind].
      * destruct IH as [Hn HF]. split.
        -- intros [E | Hn']; [discriminate | contradiction].
        -- constructor; [|exact HF]. exists d. rewrite Ef.
           cbn [date songs song_count show_venue].
           repeat split.
           ++ unfold len. simpl. now rewrite length_map.
           ++ unfold len. simpl length. lia.
           ++ now exists r0, rows.
      * destruct IH as [-> Hn]. split; [reflexivity | now right].
    + cbn. split; [reflexivity | now left].
Qed.

Lemma get_stats_fields (df : DataFrame) (st : Stats) :
  get_stats df = Ok st ->
  Dates df <> []
  /\ total_shows st = nunique Z.eqb (Dates df)
  /\ total_songs st = len df.
Proof.
  unfold get_stats. destruct (Dates df) as [|d ds] eqn:E; [discriminate|].
  cbn. intros Est. injection Est as <-. repeat split. discriminate.
Qed.

(** The export returns on the frames that have a row and no missing date,
    and fails with [ValueError] on all others. *)
Lemma export_outcome (df : DataFrame) :
  match export_for_visualization df with
  | Ok doc =>
      df <> [] /\ all_dated df
      /\ Forall2 (show_of_date df) (unique ts_eqb (map Date df))
           (export_shows doc)
      /\ get_top_songs (Some 20) df = Ok (song_frequency doc)
      /\ get_venue_stats df = Ok (venue_stats doc)
      /\ get_rare_songs df = Ok (rare_songs doc)
      /\ get_stats df = Ok (stats doc)
  | Raise e => e = ValueError /\ (df = [] \/ exists r, In r df /\ Date r = NaT)
  end.
Proof.
  unfold export_for_visualization.
  pose proof (export_shows_rows df (unique ts_eqb (map Date df))
                (fun t => proj1 (unique_In ts_eqb ts_eqb_eq (map Date df) t)))
    as Hm.
  destruct (mapM (export_show df) (unique ts_eqb (map Date df))) as [shs|e];
    cbn [bind].
  - destruct Hm as [Hn HF].
    assert (Hd : all_dated df).
    { intros r Hr E. apply Hn, (unique_In ts_eqb ts_eqb_eq).
      rewrite <- E. now apply in_map. }
    unfold get_top_songs, get_venue_stats, get_rare_songs. cbn [bind].
    destruct df as [|r0 df].
    + cbn. split; [reflexivity | now left].
    + assert (Hne : Dates (r0 :: df) <> []).
      { unfold Dates. simpl. destruct (Date r0) eqn:E; [discriminate|].
        exfalso. apply (Hd r0); [now left | exact E]. }
      destruct (get_stats_returns (r0 :: df) Hne) as (st & -> & _).
      cbn. repeat split; try assumption. discriminate.
  - destruct Hm as [-> Hn]. split; [reflexivity|]. right.
    apply (unique_In ts_eqb ts_eqb_eq), in_map_iff in Hn.
    destruct Hn as (r & E & Hr). now exists r.
Qed.

(** C5, evaluated where it fails and proved wherever the export returns.
    On the empty frame [export_for_visualization] raises, with [get_stats],
    where the claim asks for an empty [shows] list and zero counts; on a
    frame with a row without a date it raises, though [get_stats] returns.
    Whenever the export returns, its [shows] list has as many entries as
    [get_stats] counts shows, and the song counts of its entries, like the
    lengths of their song lists, add up to [total_songs]. *)
Theorem export_round_trip :
  (export_for_visualization [] = Raise ValueError
   /\ get_stats [] = Raise ValueError)
  /\ (export_for_visualization undated_frame = Raise ValueError
      /\ exists st, get_stats undated_frame = Ok st
                    /\ total_shows st = 1 /\ total_songs st = 2)
  /\ forall df doc,
       export_for_visualization df = Ok doc ->
       exists st,
         get_stats df = Ok st
         /\ stats doc = st
         /\ len (export_shows doc) = total_shows st
         /\ total (map song_count (export_shows doc)) = total_songs st
         /\ total (map (fun sh => len (songs sh)) (export_shows doc))
            = total_songs st.
Proof.
  split; [split; reflexivity|].
  split; [split; [reflexivity | eexists; repeat split]|].
  intros df doc E.
  pose proof (export_outcome df) as Ho. rewrite E in Ho.
  destruct Ho as (_ & Hd & HF & _ & _ & _ & Est).
  exists (stats doc). split; [exact Est|]. split; [reflexivity|].
  destruct (get_stats_fields df _ Est) as (_ & -> & ->).
  assert (Hc : map song_count (export_shows doc)
               = map (fun t => len (filter (fun r => ts_eqb (Date r) t) df))
                     (unique ts_eqb (map Date df))).
  { clear - HF. induction HF as [|t sh ts shs Hsh _ IH]; [reflexivity|].
    simpl. rewrite IH. f_equal.
    destruct Hsh as (d & -> & _ & Hs & Hc & _). rewrite Hc, Hs.
    unfold len. rewrite length_map.
    rewrite (filter_ext (fun r => date_is d (Date r))
               (fun r => ts_eqb (Date r) (Timestamp d))); [reflexivity|].
    intros r. destruct (Date r); reflexivity. }
  assert (Hl : map (fun sh => len (songs sh)) (export_shows doc)
               = map song_count (export_shows doc)).
  { clear - HF. induction HF as [|t sh ts shs Hsh _ IH]; [reflexivity|].
    simpl. rewrite IH. f_equal.
    destruct Hsh as (d & _ & _ & _ & Hc & _). now rewrite Hc. }
  split; [|split].
  - rewrite (all_dated_nunique df Hd). unfold len.
    now rewrite (Forall2_length HF).
  - rewrite Hc. apply rows_per_date.
  - rewrite Hl, Hc. apply rows_per_date.
Qed.
End Exporter.

(** ** Setlists *)

Section Setlist.
Context `{Pandas}.

(** C9: for a text that [to_datetime] reads as a date, [get_show_setlist]
    returns the raw songs of the rows of that date, in row order, and the
    empty list when the frame has no row of that date. *)
Theorem get_show_setlist_rows (df : DataFrame) (s : str) (d : Z) :
  to_datetime s = Some (Timestamp d) ->
  get_show_setlist s df
  = Ok (map Song (filter (fun r => date_is d (Date r)) df))
  /\ ((forall r, In r df -> Date r <> Timestamp d) ->
      get_show_setlist s df = Ok []).
Proof.
  intros E. unfold get_show_setlist. rewrite E. cbn [date_eq].
  split; [reflexivity|].
  intros Hno. f_equal.
  induction df as [|r df IH]; [reflexivity|]. simpl.
  destruct (date_is d (Date r)) eqn:Ed.
  - exfalso. apply (Hno r); [now left | now apply date_is_true].
  - apply IH. intros r' Hr'. apply Hno. now right.
Qed.

(** The missing date [NaT] matches no row. *)
Lemma get_show_setlist_nat (df : DataFrame) (s : str) :
  to_datetime s = Some NaT -> get_show_setlist s df = Ok [].
Proof.
  intros E. unfold get_show_setlist. rewrite E. cbn [date_eq]. f_equal.
  induction df as [|r df IH]; [reflexivity | exact IH].
Qed.
End Setlist.

Lemma get_show_setlist_rows_witness :
  @get_show_setlist reference_pandas (py "2023-01-01") example_frame
  = Ok [Some (py "Song1"); Some (py "Song2 (cover)")]
  /\ @get_show_setlist reference_pandas (py "2022-12-31") example_frame = Ok [].
Proof.
  split.
  - apply (@get_show_setlist_rows reference_pandas example_frame
             (py "2023-01-01") (ymd 2023 1 1)). reflexivity.
  - apply (@get_show_setlist_rows reference_pandas example_frame
             (py "2022-12-31") (ymd 2022 12 31)); [reflexivity|].
    intros r [<- | [<- | [<- | []]]]; discriminate.
Defined.
(** ** Group keys *)

Lemma insert_sorted_perm (x : str) (l : list str) :
  Permutation (insert_sorted x l) (x :: l).
Proof.
  induction l as [|y l IH]; simpl; [reflexivity|].
  destruct (str_leb x y); [reflexivity|].
  rewrite IH. apply perm_swap.
Qed.

Lemma group_keys_perm (l : list str) :
  Permutation (group_keys l) (unique str_eqb l).
Proof.
  unfold group_keys. induction (unique str_eqb l) as [|x u IH]; simpl.
  - reflexivity.
  - rewrite insert_sorted_perm. now constructor.
Qed.

Lemma group_keys_In (l : list str) (x : str) : In x (group_keys l) <-> In x l.
Proof.
  rewrite <- (unique_In str_eqb str_eqb_eq l x).
  split; apply Permutation_in;
    [apply group_keys_perm | symmetry; apply group_keys_perm].
Qed.

Lemma group_keys_NoDup (l : list str) : NoDup (group_keys l).
Proof.
  apply (Permutation_NoDup (Permutation_sym (group_keys_perm l))).
  apply (unique_NoDup str_eqb str_eqb_eq).
Qed.

(** ** Rare songs *)

(** The frame that the constructor returns, whenever it returns. *)
Lemma init_rows (csv : list CsvRow) (df : DataFrame) :
  __init__ csv = Ok df -> df = rows_of csv.
Proof.
  unfold __init__, _process_songs.
  destruct (has_str (map snd csv)); [|discriminate]. now intros [= <-].
Qed.

Lemma rows_of_clean_song (csv : list CsvRow) (r : Row) :
  In r (rows_of csv) ->
  clean_song r = option_map (fun x => strip (sub_parens x)) (Song r).
Proof.
  unfold rows_of. rewrite in_map_iff. intros ([[d v] s] & <- & _). reflexivity.
Qed.

Lemma isin_true (c : cell) (values : list str) :
  isin c values = true <-> exists k, c = Some k /\ In k values.
Proof.
  destruct c as [s|]; simpl.
  - rewrite existsb_exists. split.
    + intros (k & Hk & E). apply str_eqb_eq in E. subst k. now exists s.
    + intros (k & [= ->] & Hk). exists k. split; [assumption|].
      apply str_eqb_refl.
  - split; [discriminate | now intros (k & E & _)].
Qed.

(** The rows whose raw song [get_rare_songs] returns. *)
Lemma get_rare_songs_In (df : DataFrame) (s : cell) :
  forall out, get_rare_songs df = Ok out ->
  (In s out <->
   exists r k, In r df /\ Song r = s /\ clean_song r = Some k
               /\ row_count k df = 1).
Proof.
  intros out [= <-].
  rewrite (unique_In cell_eqb cell_eqb_eq), in_map_iff.
  split.
  - intros (r & Hs & Hr). apply filter_In in Hr. destruct Hr as [Hr Hx].
    apply isin_true in Hx. destruct Hx as (k & Ek & Hk).
    exists r, k. repeat split; auto.
    apply filter_In in Hk. destruct Hk as [_ Hk].
    now apply Z.eqb_eq in Hk.
  - intros (r & k & Hr & Hs & Ek & Hc). exists r. split; [assumption|].
    apply filter_In. split; [assumption|].
    apply isin_true. exists k. split; [assumption|].
    apply filter_In. split.
    + apply group_keys_In, dropna_In. rewrite <- Ek. now apply in_map.
    + now apply Z.eqb_eq.
Qed.

(** C7: on the frame of a loaded file, [get_rare_songs] returns, each once,
    the raw songs of the rows whose clean song has exactly one row in the
    whole frame; every returned value is a text, and the clean song of that
    text has one row. *)
Theorem get_rare_songs_exactly_once (csv : list CsvRow) :
  exists out, get_rare_songs (rows_of csv) = Ok out
    /\ NoDup out
    /\ (forall s, In s out <->
          exists r k, In r (rows_of csv) /\ Song r = s
                      /\ clean_song r = Some k
                      /\ row_count k (rows_of csv) = 1)
    /\ (forall s, In s out ->
          exists t, s = Some t
                    /\ row_count (strip (sub_parens t)) (rows_of csv) = 1).
Proof.
  eexists; split; [reflexivity|].
  split; [apply (unique_NoDup cell_eqb cell_eqb_eq)|].
  split; [intros s; now apply get_rare_songs_In|].
  intros s Hs. apply (get_rare_songs_In (rows_of csv) s _ eq_refl) in Hs.
  destruct Hs as (r & k & Hr & <- & Ek & Hc).
  rewrite (rows_of_clean_song csv r Hr) in Ek.
  destruct (Song r) as [t|]; [|discriminate].
  exists t. split; [reflexivity|]. simpl in Ek. injection Ek as <-.
  exact Hc.
Qed.

(** ** The order on strings *)

Lemma str_leb_total (a b : str) : str_leb a b = true \/ str_leb b a = true.
Proof.
  revert b; induction a as [|x a IH]; intros [|y b]; simpl; auto.
  destruct (Nat.ltb_spec (nat_of_ascii x) (nat_of_ascii y)); auto.
  destruct (Nat.ltb_spec (nat_of_ascii y) (nat_of_ascii x)); auto.
Qed.

Lemma str_leb_antisym (a b : str) :
  str_leb a b = true -> str_leb b a = true -> a = b.
Proof.
  revert b; induction a as [|x a IH]; intros [|y b]; simpl; try discriminate;
    auto.
  destruct (Nat.ltb_spec (nat_of_ascii x) (nat_of_ascii y));
    destruct (Nat.ltb_spec (nat_of_ascii y) (nat_of_ascii x));
    try discriminate; try lia.
  intros Hab Hba. f_equal; [|now apply IH].
  rewrite <- (ascii_nat_embedding x), <- (ascii_nat_embedding y).
  f_equal. lia.
Qed.

Lemma str_leb_trans (a b c : str) :
  str_leb a b = true -> str_leb b c = true -> str_leb a c = true.
Proof.
  revert b c; induction a as [|x a IH]; intros [|y b] [|z c]; simpl;
    try discriminate; auto.
  destruct (Nat.ltb_spec (nat_of_ascii x) (nat_of_ascii y));
    destruct (Nat.ltb_spec (nat_of_ascii y) (nat_of_ascii x));
    destruct (Nat.ltb_spec (nat_of_ascii y) (nat_of_ascii z));
    destruct (Nat.ltb_spec (nat_of_ascii z) (nat_of_ascii y));
    destruct (Nat.ltb_spec (nat_of_ascii x) (nat_of_ascii z));
    destruct (Nat.ltb_spec (nat_of_ascii z) (nat_of_ascii x));
    try discriminate; try lia; auto.
  apply IH.
Qed.

Lemma insert_sorted_sorted (x : str) (l : list str) :
  StronglySorted str_le l -> StronglySorted str_le (insert_sorted x l).
Proof.
  induction 1 as [|y l Hl IH Hy]; simpl.
  - repeat constructor.
  - destruct (str_leb x y) eqn:E.
    + constructor; [now constructor|].
      constructor; [exact E|].
      eapply Forall_impl; [|exact Hy].
      intros z Hz. exact (str_leb_trans _ _ _ E Hz).
    + constructor; [assumption|].
      apply Forall_forall. intros z Hz.
      apply (Permutation_in _ (insert_sorted_perm x l)) in Hz.
      destruct Hz as [<- | Hz].
      * destruct (str_leb_total x y) as [F | F]; [congruence | exact F].
      * rewrite Forall_forall in Hy. now apply Hy.
Qed.

(** The group keys come in ascending order. *)
Lemma group_keys_sorted (l : list str) : StronglySorted str_le (group_keys l).
Proof.
  unfold group_keys. induction (unique str_eqb l) as [|x u IH]; simpl.
  - constructor.
  - now apply insert_sorted_sorted.
Qed.

(** Two duplicate-free ascending lists with the same elements are equal. *)
Lemma sorted_set_unique (l1 l2 : list str) :
  StronglySorted str_le l1 -> StronglySorted str_le l2 ->
  NoDup l1 -> NoDup l2 -> (forall x, In x l1 <-> In x l2) -> l1 = l2.
Proof.
  revert l2; induction l1 as [|x l1 IH]; intros [|y l2] S1 S2 N1 N2 Hin.
  - reflexivity.
  - exfalso. apply (proj2 (Hin y)). now left.
  - exfalso. apply (proj1 (Hin x)). now left.
  - inversion S1 as [|? ? S1' Hx]; subst.
    inversion S2 as [|? ? S2' Hy]; subst.
    inversion N1 as [|? ? Nx N1']; subst.
    inversion N2 as [|? ? Ny N2']; subst.
    rewrite Forall_forall in Hx, Hy.
    assert (E : x = y).
    { destruct (proj1 (Hin x) (or_introl eq_refl)) as [E | Hx2]; [now subst|].
      destruct (proj2 (Hin y) (or_introl eq_refl)) as [E | Hy1]; [now subst|].
      apply str_leb_antisym; [now apply Hx | now apply Hy]. }
    subst y. f_equal. apply IH; auto.
    intros z. split; intros Hz.
    + destruct (proj1 (Hin z) (or_intror Hz)) as [E | H2]; [|exact H2].
      subst z. contradiction.
    + destruct (proj2 (Hin z) (or_intror Hz)) as [E | H1]; [|exact H1].
      subst z. contradiction.
Qed.

(** The group keys do not depend on the order of the rows. *)
Lemma group_keys_Permutation (l l' : list str) :
  Permutation l l' -> group_keys l = group_keys l'.
Proof.
  intros P.
  apply sorted_set_unique;
    try apply group_keys_sorted; try apply group_keys_NoDup.
  intros x. rewrite !group_keys_In.
  split; apply Permutation_in; [assumption | now symmetry].
Qed.

Lemma nunique_Permutation {A : Type} (eqb : A -> A -> bool) (l l' : list A) :
  (forall x y, eqb x y = true <-> x = y) ->
  Permutation l l' -> nunique eqb l = nunique eqb l'.
Proof.
  intros Heq P. unfold nunique. f_equal. apply Permutation_length.
  apply NoDup_Permutation; try apply (unique_NoDup eqb Heq).
  intros x. rewrite !(unique_In eqb Heq).
  split; apply Permutation_in; [assumption | now symmetry].
Qed.

Lemma filter_Permutation {A : Type} (p : A -> bool) (l l' : list A) :
  Permutation l l' -> Permutation (filter p l) (filter p l').
Proof.
  induction 1 as [|x l l' _ IH|x y l|l l' l'' _ IH1 _ IH2]; simpl.
  - constructor.
  - destruct (p x); [now constructor | assumption].
  - destruct (p x), (p y); try reflexivity. apply perm_swap.
  - now transitivity (filter p l').
Qed.


(** ** Venue statistics *)

Lemma venue_groups_venues (df : DataFrame) :
  map venue (venue_groups df) = group_keys (dropna (map Venue df)).
Proof.
  unfold venue_groups. rewrite map_map. simpl. apply map_id.
Qed.

Lemma venue_groups_entries (df : DataFrame) (e : VenueStat) :
  In e (venue_groups df) ->
  let rows := filter (fun r => cell_is (venue e) (Venue r)) df in
  shows e = nunique Z.eqb (Dates rows)
  /\ venue_total_songs e = len (dropna (map Song rows))
  /\ avg_songs_per_show e
     = round1 (PrimFloat.div (to_float (venue_total_songs e))
                 (to_float (shows e))).
Proof.
  unfold venue_groups. rewrite in_map_iff. intros (v & <- & _). simpl.
  repeat split.
Qed.

(** The grouped table does not depend on the order of the rows. *)
Lemma venue_groups_Permutation (df df' : DataFrame) :
  Permutation df df' -> venue_groups df = venue_groups df'.
Proof.
  intros P. unfold venue_groups.
  rewrite (group_keys_Permutation (dropna (map Venue df))
             (dropna (map Venue df')))
    by now apply dropna_Permutation, Permutation_map.
  apply map_ext. intros v.
  assert (Pf : Permutation (filter (fun r => cell_is v (Venue r)) df)
                           (filter (fun r => cell_is v (Venue r)) df'))
    by now apply filter_Permutation.
  assert (En : nunique Z.eqb
                 (Dates (filter (fun r => cell_is v (Venue r)) df))
               = nunique Z.eqb
                   (Dates (filter (fun r => cell_is v (Venue r)) df'))).
  { apply (nunique_Permutation Z.eqb _ _ Z.eqb_eq).
    now apply Dates_Permutation. }
  assert (El : len (dropna
                      (map Song (filter (fun r => cell_is v (Venue r)) df)))
               = len (dropna
                        (map Song
                           (filter (fun r => cell_is v (Venue r)) df')))).
  { unfold len. f_equal. apply Permutation_length.
    now apply dropna_Permutation, Permutation_map. }
  now rewrite En, El.
Qed.

(** The rows of a list of cells that hold a value. *)
Lemma dropna_len_filter {A B : Type} (f : A -> option B) (l : list A) :
  len (dropna (map f l)) = len (filter (fun a => notna (f a)) l).
Proof.
  unfold len. f_equal.
  induction l as [|x l IH]; [reflexivity|]. simpl.
  destruct (f x); simpl; now rewrite IH.
Qed.

Section VenueStats.
Context `{Pandas}.

(** C8, as the code has it: [get_venue_stats] returns one entry per venue
    name of the frame; rows without a venue are in no entry. The [shows] of
    an entry is the number of distinct dates among the rows of the venue,
    its [total_songs] the number of those rows that have a song text, its
    average the binary64 quotient of the two put through [round(1)]. The
    entries descend in [shows]; nothing is said about entries of equal
    [shows]. *)
Theorem get_venue_stats_entries (df : DataFrame) :
  exists out, get_venue_stats df = Ok out
    /\ NoDup (map venue out)
    /\ (forall v, In v (map venue out) <-> In (Some v) (map Venue df))
    /\ (forall e, In e out ->
          let rows := filter (fun r => cell_is (venue e) (Venue r)) df in
          shows e = nunique Z.eqb (Dates rows)
          /\ venue_total_songs e
             = len (filter (fun r => notna (Song r)) rows)
          /\ venue_total_songs e <= len rows
          /\ avg_songs_per_show e
             = round1 (PrimFloat.div (to_float (venue_total_songs e))
                         (to_float (shows e))))
    /\ StronglySorted (fun a b => shows b <= shows a) out.
Proof.
  eexists; split; [reflexivity|].
  pose proof (sort_values_perm shows false (venue_groups df)) as P.
  split; [|split; [|split]].
  - apply (Permutation_NoDup (Permutation_map venue (Permutation_sym P))).
    rewrite venue_groups_venues. apply group_keys_NoDup.
  - intros v.
    rewrite <- dropna_In.
    rewrite <- (group_keys_In (dropna (map Venue df)) v).
    rewrite <- venue_groups_venues.
    split; apply Permutation_in;
      [apply Permutation_map, P | apply Permutation_map; symmetry; apply P].
  - intros e He rows.
    apply (Permutation_in _ P), venue_groups_entries in He.
    destruct He as (Hs & Ht & Ha). fold rows in Ht.
    assert (Ht' : venue_total_songs e
                  = len (filter (fun r => notna (Song r)) rows))
      by (rewrite Ht; exact (dropna_len_filter Song rows)).
    repeat split; auto.
    rewrite Ht'. unfold len.
    pose proof (filter_length_le (fun r => notna (Song r)) rows). lia.
  - apply sort_values_descending.
Qed.
End VenueStats.

(** C8 as the specification words it fails twice. On a frame with a row
    that has a venue and no song, [total_songs] of the venue is 0 where the
    venue has one row. And the order of two venues of equal [shows] is the
    sorter's: two sorters that both meet the contract of [argsort] list the
    venues of the example frame in opposite orders. *)
Lemma get_venue_stats_counts_songs :
  venue_groups missing_song_frame
  = [ {| venue := py "VenueA"; shows := 1; venue_total_songs := 0;
         avg_songs_per_show := 0%float |};
      {| venue := py "VenueB"; shows := 1; venue_total_songs := 1;
         avg_songs_per_show := 1%float |} ]
  /\ len (filter (fun r => cell_is (py "VenueA") (Venue r))
            missing_song_frame) = 1
  /\ @get_venue_stats reference_pandas example_frame
     = Ok [ {| venue := py "VenueA"; shows := 1; venue_total_songs := 2;
               avg_songs_per_show := 2%float |};
            {| venue := py "VenueB"; shows := 1; venue_total_songs := 1;
               avg_songs_per_show := 1%float |} ]
  /\ @get_venue_stats reversed_pandas example_frame
     = Ok [ {| venue := py "VenueB"; shows := 1; venue_total_songs := 1;
               avg_songs_per_show := 1%float |};
            {| venue := py "VenueA"; shows := 1; venue_total_songs := 2;
               avg_songs_per_show := 2%float |} ].
Proof. repeat split; vm_compute; reflexivity. Qed.
(** ** Searching for a song *)

Lemma chr_eqb_sym (a b : ascii) : chr_eqb a b = chr_eqb b a.
Proof. apply Ascii.eqb_sym. Qed.

Lemma prefixb_spec (p s : str) :
  prefixb p s = true <-> exists post, s = p ++ post.
Proof.
  revert s; induction p as [|x p IH]; intros s; simpl.
  - split; [intros _; now exists s | reflexivity].
  - destruct s as [|y s].
    + split; [discriminate | intros (post & E); discriminate].
    + rewrite andb_true_iff, chr_eqb_eq, IH. split.
      * intros (-> & post & ->). now exists post.
      * intros (post & E). inversion E; subst. split; [reflexivity|].
        now exists post.
Qed.

Lemma infixb_spec (p s : str) :
  infixb p s = true <-> exists pre post, s = pre ++ p ++ post.
Proof.
  induction s as [|y s IH]; simpl.
  - rewrite orb_false_r, prefixb_spec. split.
    + intros (post & E). now exists [], post.
    + intros (pre & post & E). destruct pre; [now exists post|discriminate].
  - rewrite orb_true_iff, prefixb_spec, IH. split.
    + intros [(post & E) | (pre & post & E)].
      * now exists [], post.
      * exists (y :: pre), post. now rewrite E.
    + intros (pre & post & E). destruct pre as [|z pre].
      * left. now exists post.
      * right. inversion E; subst. now exists pre, post.
Qed.

(** [contains_ci] says that the lowered text has the lowered substring
    somewhere inside. *)
Lemma contains_ci_spec (sub s : str) :
  contains_ci sub s = true
  <-> exists pre post, map lower s = pre ++ map lower sub ++ post.
Proof. apply infixb_spec. Qed.

Lemma contains_ci_empty (s : str) : contains_ci [] s = true.
Proof. unfold contains_ci. now destruct s. Qed.

(** A text without metacharacters compiles to its characters as literals. *)
Lemma re_parse_literal (s : str) :
  forallb (fun c => negb (is_meta c)) s = true ->
  re_parse s = Some [map Lit s].
Proof.
  induction s as [|c s IH]; [reflexivity|]. simpl forallb.
  rewrite andb_true_iff, negb_true_iff. intros [Hc Hs].
  assert (Hbar : chr_eqb c "|" = false).
  { destruct (chr_eqb c "|") eqn:E; auto.
    apply chr_eqb_eq in E; subst. discriminate. }
  assert (Hdot : chr_eqb c "." = false).
  { destruct (chr_eqb c ".") eqn:E; auto.
    apply chr_eqb_eq in E; subst. discriminate. }
  assert (Hesc : chr_eqb c "\" = false).
  { destruct (chr_eqb c "\") eqn:E; auto.
    apply chr_eqb_eq in E; subst. discriminate. }
  simpl re_parse. now rewrite Hbar, Hdot, Hesc, Hc, (IH Hs).
Qed.

Lemma match_here_literal (p s : str) :
  match_here (map Lit p) s = prefixb (map lower p) (map lower s).
Proof.
  revert s; induction p as [|x p IH]; intros [|y s]; simpl; auto.
  now rewrite IH, chr_eqb_sym.
Qed.

Lemma search_alt_literal (p s : str) :
  search_alt (map Lit p) s = contains_ci p s.
Proof.
  unfold contains_ci. induction s as [|y s IH]; simpl.
  - now rewrite (match_here_literal p []).
  - now rewrite (match_here_literal p (y :: s)), IH.
Qed.

Section FindSong.
Context `{Pandas}.

(** What the code computes: the rows whose clean song is a text that the
    pattern, read as a regular expression without regard to case, matches
    somewhere; in ascending order of date, the rows without a date last. *)
Lemma find_song_appearances_regex (df : DataFrame) (s : str) (pat : regex) :
  re_parse s = Some pat ->
  exists out, find_song_appearances s df = Some (Ok out)
    /\ Permutation out
         (map (fun r => (Date r, Venue r, Song r))
              (filter (fun r => str_contains pat (clean_song r)) df))
    /\ StronglySorted
         (fun a b => na_last_le (appearance_date a) (appearance_date b)) out.
Proof.
  intros E. unfold find_song_appearances. rewrite E.
  eexists; split; [reflexivity|]. split.
  - apply sort_values_na_perm.
  - apply sort_values_na_sorted.
Qed.

(** C6, for a text without regular-expression metacharacters:
    [find_song_appearances] returns the rows that have a clean song
    containing the text, letter case ignored, as (date, venue, raw song) in
    ascending order of date, the rows without a date last; for the empty
    text these are the rows that have a clean song. A row whose song is
    missing is never returned. *)
Theorem find_song_appearances_literal (df : DataFrame) (s : str) :
  forallb (fun c => negb (is_meta c)) s = true ->
  exists out, find_song_appearances s df = Some (Ok out)
    /\ Permutation out
         (map (fun r => (Date r, Venue r, Song r))
              (filter (fun r => cell_contains_ci s (clean_song r)) df))
    /\ StronglySorted
         (fun a b => na_last_le (appearance_date a) (appearance_date b)) out
    /\ (s = [] ->
        Permutation out
          (map (fun r => (Date r, Venue r, Song r))
               (filter (fun r => notna (clean_song r)) df))).
Proof.
  intros Hs.
  destruct (find_song_appearances_regex df s _ (re_parse_literal s Hs))
    as (out & E & P & S).
  assert (F : filter (fun r => str_contains [map Lit s] (clean_song r)) df
              = filter (fun r => cell_contains_ci s (clean_song r)) df).
  { apply filter_ext. intros r. destruct (clean_song r) as [c|]; simpl; auto.
    unfold re_search. simpl.
    now rewrite orb_false_r, search_alt_literal. }
  rewrite F in P. exists out. repeat split; auto.
  intros ->. rewrite P. apply Permutation_map.
  assert (G : filter (fun r => cell_contains_ci [] (clean_song r)) df
              = filter (fun r => notna (clean_song r)) df).
  { apply filter_ext. intros r. destruct (clean_song r) as [c|]; simpl; auto.
    apply contains_ci_empty. }
  now rewrite G.
Qed.

(** On a frame with one row that has a song, the empty text finds that
    row whatever the sorter. *)
Lemma find_song_appearances_skips_missing :
  find_song_appearances [] missing_song_frame
  = Some (Ok [(Timestamp (ymd 2023 6 1), Some (py "VenueB"),
               Some (py "Song1"))]).
Proof.
  destruct (find_song_appearances_regex missing_song_frame [] _ eq_refl)
    as (out & E & P & _).
  rewrite E. do 2 f_equal.
  apply Permutation_sym, Permutation_length_1_inv in P. exact P.
Qed.
End FindSong.

Lemma find_song_appearances_literal_witness :
  exists out,
    @find_song_appearances reference_pandas (py "song2") example_frame
    = Some (Ok out)
    /\ Permutation out
         (map (fun r => (Date r, Venue r, Song r))
              (filter (fun r => cell_contains_ci (py "song2") (clean_song r))
                      example_frame))
    /\ StronglySorted
         (fun a b => na_last_le (appearance_date a) (appearance_date b)) out
    /\ (py "song2" = [] ->
        Permutation out
          (map (fun r => (Date r, Venue r, Song r))
               (filter (fun r => notna (clean_song r)) example_frame))).
Proof.
  apply (@find_song_appearances_literal reference_pandas example_frame
           (py "song2")).
  reflexivity.
Defined.

(** C6 as stated fails on the empty text: of the two rows of a frame whose
    first row has no song, only the second is returned, by every sorter. *)
Lemma find_song_appearances_empty_text :
  (forall P : Pandas,
     @find_song_appearances P [] missing_song_frame
     = Some (Ok [(Timestamp (ymd 2023 6 1), Some (py "VenueB"),
                  Some (py "Song1"))]))
  /\ len missing_song_frame = 2.
Proof.
  split; [|reflexivity]. intros P.
  apply (@find_song_appearances_skips_missing P).
Qed.

(** The text is read as a regular expression: a dot finds every row of the
    example, none of which contains a dot. *)
Lemma find_song_appearances_dot :
  @find_song_appearances reference_pandas (py ".") example_frame
  = Some (Ok [line (ymd 2023 1 1) "VenueA" "Song1";
              line (ymd 2023 1 1) "VenueA" "Song2 (cover)";
              line (ymd 2023 6 1) "VenueB" "Song1"])
  /\ filter (fun r => cell_contains_ci (py ".") (clean_song r)) example_frame
     = [].
Proof. split; reflexivity. Qed.

(** ** Clean song names *)

(** Without a closing parenthesis there is nothing for [.*\)] to end on. *)
Lemma close_span_none (t : str) : ~ In rparen t -> close_span t = None.
Proof.
  induction t as [|c t IH]; intros Hno; [reflexivity|]. simpl.
  destruct (chr_eqb c newline); [reflexivity|].
  rewrite IH by (intros Hin; apply Hno; now right).
  destruct (chr_eqb c rparen) eqn:E; [|reflexivity].
  apply chr_eqb_eq in E. exfalso. apply Hno. now left.
Qed.

(** On one line the greedy match runs to the last closing parenthesis. *)
Lemma close_span_last (m b : str) :
  ~ In newline m -> ~ In rparen b ->
  close_span (m ++ rparen :: b) = Some (S (length m)).
Proof.
  intros Hm Hb. induction m as [|c m IH]; simpl.
  - now rewrite (close_span_none b Hb).
  - destruct (chr_eqb c newline) eqn:E.
    + apply chr_eqb_eq in E. exfalso. apply Hm. now left.
    + rewrite IH; [reflexivity|]. intros Hin. apply Hm. now right.
Qed.

Lemma sub_parens_from_skip (p r : str) :
  sub_parens_from (length p) (p ++ r) = sub_parens_from 0 r.
Proof. induction p as [|c p IH]; simpl; auto. Qed.

Lemma sub_parens_no_open (a t : str) :
  ~ In lparen a -> sub_parens_from 0 (a ++ t) = a ++ sub_parens_from 0 t.
Proof.
  induction a as [|c a IH]; intros Hno; [reflexivity|]. simpl.
  destruct (chr_eqb c lparen) eqn:E.
  - apply chr_eqb_eq in E. exfalso. apply Hno. now left.
  - rewrite IH; [reflexivity|]. intros Hin. apply Hno. now right.
Qed.

Lemma sub_parens_no_close (b : str) :
  ~ In rparen b -> sub_parens_from 0 b = b.
Proof.
  induction b as [|c b IH]; intros Hno; [reflexivity|]. simpl.
  assert (Hb : ~ In rparen b) by (intros Hin; apply Hno; now right).
  rewrite (close_span_none b Hb), (IH Hb). now destruct (chr_eqb c lparen).
Qed.

(** The span from the first opening to the last closing parenthesis goes,
    when no line end lies between them. *)
Lemma sub_parens_span (a m b : str) :
  ~ In lparen a -> ~ In newline m -> ~ In rparen b ->
  sub_parens (a ++ lparen :: m ++ rparen :: b) = a ++ b.
Proof.
  intros Ha Hm Hb. unfold sub_parens.
  rewrite (sub_parens_no_open a _ Ha). f_equal.
  simpl. rewrite (close_span_last m b Hm Hb).
  change (S (length m)) with (length (rparen :: m)).
  replace (length (rparen :: m)) with (length (m ++ [rparen]))
    by (rewrite length_app; simpl; lia).
  replace (m ++ rparen :: b) with ((m ++ [rparen]) ++ b)
    by now rewrite <- app_assoc.
  rewrite sub_parens_from_skip. now apply sub_parens_no_close.
Qed.

Lemma split_first (c : ascii) (s : str) :
  In c s -> exists a t, s = a ++ c :: t /\ ~ In c a.
Proof.
  induction s as [|x s IH]; intros Hin; [contradiction|].
  destruct (ascii_dec x c) as [-> | Hx].
  - exists [], s. split; [reflexivity | intros []].
  - destruct Hin as [E | Hin]; [contradiction|].
    destruct (IH Hin) as (a & t & -> & Ha).
    exists (x :: a), t. split; [reflexivity|].
    intros [E | Hin']; [contradiction | now apply Ha].
Qed.

Lemma split_last (c : ascii) (s : str) :
  In c s -> exists t b, s = t ++ c :: b /\ ~ In c b.
Proof.
  intros Hin. apply in_rev in Hin.
  destruct (split_first c (rev s) Hin) as (a & t & E & Ha).
  exists (rev t), (rev a). split.
  - rewrite <- (rev_involutive s), E, rev_app_distr. simpl.
    now rewrite <- app_assoc.
  - intros Hr. apply Ha. now apply in_rev.
Qed.

(** Behind the first opening parenthesis, a pair means a closing one. *)
Lemma has_paren_pair_first (a t : str) :
  ~ In lparen a ->
  (has_paren_pair (a ++ lparen :: t) <-> In rparen t).
Proof.
  intros Ha. split.
  - intros (x & y & z & E).
    assert (Hw : In rparen (y ++ rparen :: z))
      by (apply in_or_app; right; now left).
    apply app_eq_app in E. destruct E as (l & [[E1 E2] | [E1 E2]]).
    + destruct l as [|c l]; simpl in E2.
      * inversion E2; subst. assumption.
      * inversion E2; subst. exfalso. apply Ha.
        apply in_or_app. right. now left.
    + destruct l as [|c l]; simpl in E2.
      * inversion E2; subst. assumption.
      * inversion E2; subst. apply in_or_app. right. now right.
  - intros Hin. apply in_split in Hin. destruct Hin as (m & b & ->).
    now exists a, m, b.
Qed.

Lemma no_pair_without_open (s : str) : ~ In lparen s -> ~ has_paren_pair s.
Proof.
  intros Hno (a & m & b & ->). apply Hno, in_or_app. right. now left.
Qed.

(** A text without a pair is left as it is. *)
Lemma sub_parens_no_pair (s : str) : ~ has_paren_pair s -> sub_parens s = s.
Proof.
  intros Hno. unfold sub_parens.
  destruct (in_dec ascii_dec lparen s) as [Hin | Hout].
  - destruct (split_first lparen s Hin) as (a & t & -> & Ha).
    rewrite has_paren_pair_first in Hno by assumption.
    rewrite (sub_parens_no_open a _ Ha). f_equal. simpl.
    now rewrite (close_span_none t Hno), (sub_parens_no_close t Hno).
  - rewrite <- (app_nil_r s) at 1.
    rewrite (sub_parens_no_open s [] Hout). simpl. apply app_nil_r.
Qed.

(** On a text of one line the substitution leaves no pair. *)
Lemma sub_parens_one_line (s : str) :
  ~ In newline s -> ~ has_paren_pair (sub_parens s).
Proof.
  intros Hnl.
  destruct (in_dec ascii_dec lparen s) as [Hin | Hout].
  - destruct (split_first lparen s Hin) as (a & t & -> & Ha).
    destruct (in_dec ascii_dec rparen t) as [Hr | Hr].
    + destruct (split_last rparen t Hr) as (m & b & -> & Hb).
      rewrite sub_parens_span; auto.
      * intros (x & y & z & E).
        assert (Hw : In rparen (y ++ rparen :: z))
          by (apply in_or_app; right; now left).
        apply app_eq_app in E. destruct E as (l & [[E1 E2] | [E1 E2]]).
        -- destruct l as [|c l]; simpl in E2.
           ++ subst b. apply Hb. now right.
           ++ inversion E2; subst. apply Ha, in_or_app. right. now left.
        -- subst b. apply Hb, in_or_app. right. now right.
      * intros Hm. apply Hnl, in_or_app. right. right.
        apply in_or_app. now left.
    + rewrite sub_parens_no_pair; now rewrite has_paren_pair_first.
  - rewrite sub_parens_no_pair; now apply no_pair_without_open.
Qed.

Lemma lstrip_suffix (s : str) : exists p, s = p ++ lstrip s.
Proof.
  induction s as [|c s (p & IH)]; [now exists []|]. simpl.
  destruct (is_space c); [|now exists []].
  exists (c :: p). simpl. now rewrite <- IH.
Qed.

(** [strip] keeps a stretch of the text. *)
Lemma strip_infix (s : str) : exists p q, s = p ++ strip s ++ q.
Proof.
  unfold strip, rstrip.
  destruct (lstrip_suffix s) as (p & Ep).
  destruct (lstrip_suffix (rev (lstrip s))) as (q & Eq).
  exists p, (rev q). rewrite <- rev_app_distr, <- Eq, rev_involutive.
  exact Ep.
Qed.

Lemma has_paren_pair_strip (s : str) :
  has_paren_pair (strip s) -> has_paren_pair s.
Proof.
  intros (a & m & b & E). destruct (strip_infix s) as (p & q & Es).
  exists (p ++ a), m, (b ++ q). rewrite Es at 1. rewrite E.
  repeat (rewrite <- app_assoc; simpl). reflexivity.
Qed.


(** A row without a song has no clean song. *)
Lemma clean_song_missing (csv : list CsvRow) (r : Row) :
  In r (rows_of csv) -> (clean_song r = None <-> Song r = None).
Proof.
  intros Hr. rewrite (rows_of_clean_song csv r Hr).
  destruct (Song r); simpl; split; congruence.
Qed.

(** C10, for a song text of one line: the clean song of a loaded row is the
    text without the span from its first opening to its last closing
    parenthesis, trimmed (so what stands between two parenthetical groups
    goes as well); a text with no opening parenthesis before a closing one
    is only trimmed; and the clean song has no opening parenthesis with a
    closing one behind it. *)
Theorem clean_song_one_line (csv : list CsvRow) (r : Row) (s : str) :
  In r (rows_of csv) -> Song r = Some s -> ~ In newline s ->
  (forall a m b,
      s = a ++ lparen :: m ++ rparen :: b ->
      ~ In lparen a -> ~ In rparen b ->
      clean_song r = Some (strip (a ++ b)))
  /\ (forall a m1 mid m2 b,
        s = a ++ lparen :: m1 ++ rparen :: mid ++ lparen :: m2 ++ rparen :: b ->
        ~ In lparen a -> ~ In rparen b ->
        clean_song r = Some (strip (a ++ b)))
  /\ (~ has_paren_pair s -> clean_song r = Some (strip s))
  /\ exists c, clean_song r = Some c /\ ~ has_paren_pair c.
Proof.
  intros Hr Es Hnl. rewrite (rows_of_clean_song csv r Hr), Es.
  cbn [option_map].
  assert (Hspan : forall a m b,
            s = a ++ lparen :: m ++ rparen :: b ->
            ~ In lparen a -> ~ In rparen b ->
            Some (strip (sub_parens s)) = Some (strip (a ++ b))).
  { intros a m b E Ha Hb. rewrite E in Hnl |- *.
    rewrite sub_parens_span; auto.
    intros Hm. apply Hnl, in_or_app. right. right. apply in_or_app. now left. }
  split; [exact Hspan|]. split; [|split].
  - intros a m1 mid m2 b E Ha Hb.
    apply (Hspan a (m1 ++ rparen :: mid ++ lparen :: m2) b); auto.
    rewrite E. repeat (rewrite <- app_assoc; simpl). reflexivity.
  - intros Hno. now rewrite sub_parens_no_pair.
  - eexists; split; [reflexivity|].
    intros Hp. apply has_paren_pair_strip in Hp.
    now apply (sub_parens_one_line s).
Qed.

Lemma clean_song_one_line_witness :
  let r := process_row (line (ymd 2023 1 1) "VenueA" "A (x) B (y) C") in
  clean_song r = Some (strip (py "A " ++ py " C"))
  /\ exists c, clean_song r = Some c /\ ~ has_paren_pair c.
Proof.
  pose (r := process_row (line (ymd 2023 1 1) "VenueA" "A (x) B (y) C")).
  assert (Hr : In r (rows_of [line (ymd 2023 1 1) "VenueA" "A (x) B (y) C"]))
    by (now left).
  assert (Hnl : ~ In newline (py "A (x) B (y) C")).
  { simpl. intros Hin.
    repeat (destruct Hin as [Hin | Hin]; [discriminate Hin|]).
    exact Hin. }
  destruct (clean_song_one_line _ r (py "A (x) B (y) C") Hr eq_refl Hnl)
    as (_ & Hgroups & _ & Hpair).
  split; [|exact Hpair].
  apply (Hgroups (py "A ") (py "x") (py " B ") (py "y") (py " C")).
  - reflexivity.
  - simpl. intros [E | [E | []]]; discriminate E.
  - simpl. intros [E | [E | []]]; discriminate E.
Defined.

(** C10 as stated fails: the dot of the pattern does not cross a line end,
    so a pair of parentheses on two lines stays in the clean song. *)
Lemma clean_song_two_lines :
  clean_song
    (process_row (Timestamp (ymd 2023 1 1), Some (py "VenueA"),
                  Some [lparen; newline; rparen]))
  = Some [lparen; newline; rparen]
  /\ has_paren_pair [lparen; newline; rparen].
Proof.
  split; [reflexivity|]. now exists [], [newline], [].
Qed.

(** * Further properties of the query methods *)

(** ** Bounds on distinct values *)

Lemma nunique_bounds {A : Type} (eqb : A -> A -> bool) (l : list A) :
  l <> [] -> 1 <= nunique eqb l <= len l.
Proof.
  intros Hne. unfold nunique, len. pose proof (unique_length_le eqb l).
  destruct l; [contradiction|]. simpl in *. lia.
Qed.

Lemma nunique_le {A : Type} (eqb : A -> A -> bool) (l : list A) :
  0 <= nunique eqb l <= len l.
Proof. unfold nunique, len. pose proof (unique_length_le eqb l). lia. Qed.

Lemma filter_len_le {A : Type} (p : A -> bool) (l : list A) :
  0 <= len (filter p l) <= len l.
Proof. unfold len. pose proof (filter_length_le p l). lia. Qed.

Lemma dropna_len_le {A B : Type} (f : A -> option B) (l : list A) :
  len (dropna (map f l)) <= len l.
Proof.
  unfold len. pose proof (dropna_length_le (map f l)) as Hl.
  rewrite length_map in Hl. lia.
Qed.

(** ** The earliest and the latest date *)

Lemma fold_min_spec (t : list Z) (x : Z) :
  In (fold_left Z.min t x) (x :: t)
  /\ forall y, In y (x :: t) -> fold_left Z.min t x <= y.
Proof.
  revert x; induction t as [|z t IH]; intros x; simpl.
  - split; [now left | intros y [<- | []]; lia].
  - destruct (IH (Z.min x z)) as [Hin Hle]. split.
    + destruct Hin as [E | Hin]; [|now right; right].
      rewrite <- E. destruct (Z.min_spec x z) as [[_ ->] | [_ ->]]; auto.
    + intros y Hy.
      assert (Hm : fold_left Z.min t (Z.min x z) <= Z.min x z)
        by (apply Hle; now left).
      destruct Hy as [<- | [<- | Hy]]; [lia | lia |].
      apply Hle. now right.
Qed.

Lemma fold_max_spec (t : list Z) (x : Z) :
  In (fold_left Z.max t x) (x :: t)
  /\ forall y, In y (x :: t) -> y <= fold_left Z.max t x.
Proof.
  revert x; induction t as [|z t IH]; intros x; simpl.
  - split; [now left | intros y [<- | []]; lia].
  - destruct (IH (Z.max x z)) as [Hin Hle]. split.
    + destruct Hin as [E | Hin]; [|now right; right].
      rewrite <- E. destruct (Z.max_spec x z) as [[_ ->] | [_ ->]]; auto.
    + intros y Hy.
      assert (Hm : Z.max x z <= fold_left Z.max t (Z.max x z))
        by (apply Hle; now left).
      destruct Hy as [<- | [<- | Hy]]; [lia | lia |].
      apply Hle. now right.
Qed.

Section StatsMore.
Context `{Pandas}.

(** X1: [get_stats] returns exactly on the frames that have a row with a
    date. Its date range is then the formatted earliest and latest date of
    the frame: both are dates of rows, and every dated row lies between
    them. On a frame without a dated row it raises [ValueError]. *)
Theorem get_stats_date_range (df : DataFrame) :
  match get_stats df with
  | Ok st =>
      exists lo hi,
        first_show st = strftime lo /\ last_show st = strftime hi
        /\ In (Timestamp lo) (map Date df) /\ In (Timestamp hi) (map Date df)
        /\ forall r d, In r df -> Date r = Timestamp d -> lo <= d <= hi
  | Raise e => e = ValueError /\ forall r, In r df -> Date r = NaT
  end.
Proof.
  unfold get_stats. destruct (Dates df) as [|d0 ds] eqn:E.
  - cbn. split; [reflexivity|]. intros r Hr.
    destruct (Date r) as [d|] eqn:Ed; [|reflexivity].
    assert (Hd : In d (Dates df)) by (apply Dates_In; now exists r).
    rewrite E in Hd. contradiction.
  - cbn.
    destruct (fold_min_spec ds d0) as [Hlo Hlo'].
    destruct (fold_max_spec ds d0) as [Hhi Hhi'].
    exists (fold_left Z.min ds d0), (fold_left Z.max ds d0).
    assert (Hin : forall d, In d (d0 :: ds) -> In (Timestamp d) (map Date df)).
    { intros d Hd. rewrite <- E in Hd. apply Dates_In in Hd.
      destruct Hd as (r & Hr & Er). rewrite <- Er. now apply in_map. }
    repeat split; auto.
    + apply Hlo'. rewrite <- E. apply Dates_In. now exists r.
    + apply Hhi'. rewrite <- E. apply Dates_In. now exists r.
Qed.

(** X2: whenever [get_stats] returns, [total_songs] is the number of rows,
    there is at least one show, and no count exceeds the number of rows. The
    counts of songs and venues leave missing values out: they may be 0, and
    are at least 1 when some row has a clean song, or a venue. *)
Theorem get_stats_bounds (df : DataFrame) (st : Stats) :
  get_stats df = Ok st ->
  total_songs st = len df
  /\ 1 <= total_shows st <= total_songs st
  /\ 0 <= unique_songs st <= total_songs st
  /\ 0 <= total_venues st <= total_songs st
  /\ 0 <= covers st <= total_songs st
  /\ 0 <= special_performances st <= total_songs st
  /\ ((exists r, In r df /\ clean_song r <> None) -> 1 <= unique_songs st)
  /\ ((exists r, In r df /\ Venue r <> None) -> 1 <= total_venues st).
Proof.
  intros E. destruct (get_stats_fields df st E) as (Hne & _ & _).
  destruct (get_stats_returns df Hne)
    as (st' & E' & Hs & Ht & Hu & Hv & Hc & Hp).
  rewrite E in E'. injection E' as <-.
  rewrite Hs, Ht, Hu, Hv, Hc, Hp.
  assert (Hcell : forall (f : Row -> cell),
            0 <= nunique str_eqb (dropna (map f df)) <= len df
            /\ ((exists r, In r df /\ f r <> None) ->
                1 <= nunique str_eqb (dropna (map f df)))).
  { intros f. split.
    - pose proof (nunique_le str_eqb (dropna (map f df))) as Hn.
      pose proof (dropna_len_le f df) as Hl.
      split; [apply Hn | etransitivity; [apply Hn | exact Hl]].
    - intros (r & Hr & Hf). apply nunique_bounds.
      destruct (f r) as [k|] eqn:Ef; [|contradiction].
      intros Hnil.
      assert (Hk : In k (dropna (map f df)))
        by (apply dropna_In; rewrite <- Ef; now apply in_map).
      rewrite Hnil in Hk. contradiction. }
  split; [reflexivity|].
  split. { pose proof (nunique_bounds Z.eqb (Dates df) Hne).
           pose proof (Dates_length_le df). lia. }
  split; [apply (Hcell clean_song)|].
  split; [apply (Hcell Venue)|].
  split; [apply filter_len_le|].
  split; [apply filter_len_le|].
  split; [apply (Hcell clean_song) | apply (Hcell Venue)].
Qed.
End StatsMore.

Lemma get_stats_bounds_witness :
  let st := {| total_shows := 2; total_songs := 3; unique_songs := 2;
               total_venues := 2; first_show := py "2023-01-01";
               last_show := py "2023-06-01"; covers := 1;
               special_performances := 0 |} in
  total_songs st = len example_frame
  /\ 1 <= total_shows st <= total_songs st
  /\ 0 <= unique_songs st <= total_songs st
  /\ 0 <= total_venues st <= total_songs st
  /\ 0 <= covers st <= total_songs st
  /\ 0 <= special_performances st <= total_songs st
  /\ ((exists r, In r example_frame /\ clean_song r <> None) ->
      1 <= unique_songs st)
  /\ ((exists r, In r example_frame /\ Venue r <> None) ->
      1 <= total_venues st).
Proof.
  apply (@get_stats_bounds reference_pandas example_frame). reflexivity.
Defined.

(** A row without a venue counts no venue; a frame whose only row has no
    date has no show to format. *)
Example get_stats_missing_cells :
  @get_stats reference_pandas
     (rows_of [(Timestamp (ymd 2023 1 1), None, Some (py "Song1"))])
  = Ok {| total_shows := 1; total_songs := 1; unique_songs := 1;
          total_venues := 0; first_show := py "2023-01-01";
          last_show := py "2023-01-01"; covers := 0;
          special_performances := 0 |}
  /\ @get_stats reference_pandas
       (rows_of [(NaT, Some (py "VenueA"), Some (py "Song1"))])
     = Raise ValueError.
Proof. split; reflexivity. Qed.

(** ** More on the ranking of songs *)

Lemma total_Permutation (l l' : list Z) :
  Permutation l l' -> total l = total l'.
Proof.
  unfold total. induction 1; simpl; lia.
Qed.

Lemma head_all {A : Type} (n : Z) (l : list A) : len l <= n -> head n l = l.
Proof.
  unfold len, head. intros Hn. destruct (Z.leb_spec 0 n); [|lia].
  apply firstn_all2. lia.
Qed.

Lemma head_prefix {A : Type} (n : Z) (l : list A) :
  exists k, head n l = firstn k l.
Proof. unfold head. destruct (0 <=? n); eexists; reflexivity. Qed.

Lemma NoDup_firstn {A : Type} (k : nat) (l : list A) :
  NoDup l -> NoDup (firstn k l).
Proof.
  intros Hl. rewrite <- (firstn_skipn k l) in Hl.
  now apply NoDup_app_remove_r in Hl.
Qed.

Lemma song_counts_songs (df : DataFrame) :
  map song (song_counts df) = group_keys (dropna (map clean_song df)).
Proof. unfold song_counts. rewrite map_map. simpl. apply map_id. Qed.

Lemma song_counts_length (df : DataFrame) :
  len (song_counts df) = nunique str_eqb (dropna (map clean_song df)).
Proof.
  unfold len, nunique. f_equal.
  rewrite <- (length_map song), song_counts_songs.
  apply Permutation_length, group_keys_perm.
Qed.

(** The rows of a key, counted on the column without its missing values. *)
Lemma cell_is_len {A : Type} (f : A -> cell) (k : str) (l : list A) :
  len (filter (fun a => cell_is k (f a)) l)
  = len (filter (fun x => str_eqb x k) (dropna (map f l))).
Proof.
  unfold len. f_equal. induction l as [|a l IH]; [reflexivity|]. simpl.
  destruct (f a) as [x|]; simpl; [|exact IH].
  destruct (str_eqb x k); simpl; now rewrite IH.
Qed.

(** Every row that has a clean song is counted once, under that song. *)
Lemma song_counts_total (df : DataFrame) :
  total (map play_count (song_counts df))
  = len (filter (fun r => notna (clean_song r)) df).
Proof.
  unfold song_counts. rewrite map_map. simpl.
  rewrite (map_ext _ (fun k => len (filter (fun x => str_eqb x k)
                                       (dropna (map clean_song df)))))
    by (intros k; apply cell_is_len).
  unfold total.
  rewrite (sum_counts_NoDup str_eqb str_eqb_eq).
  - exact (dropna_len_filter clean_song df).
  - apply group_keys_NoDup.
  - intros x. apply group_keys_In.
Qed.

Lemma song_counts_positive (df : DataFrame) (e : SongCount) :
  In e (song_counts df) ->
  1 <= play_count e /\ exists r, In r df /\ clean_song r = Some (song e).
Proof.
  intros He.
  assert (Hs : In (Some (song e)) (map clean_song df)).
  { apply dropna_In, group_keys_In. rewrite <- song_counts_songs.
    now apply in_map. }
  apply in_map_iff in Hs. destruct Hs as (r & Er & Hr).
  split; [|now exists r].
  unfold song_counts in He. apply in_map_iff in He.
  destruct He as (k & <- & _). simpl in *.
  assert (Hf : In r (filter (fun r0 => cell_is k (clean_song r0)) df))
    by (apply filter_In; split; [assumption | now apply cell_is_true]).
  unfold len.
  destruct (filter (fun r0 => cell_is k (clean_song r0)) df);
    [contradiction | simpl; lia].
Qed.

(** The grouped table does not depend on the order of the rows. *)
Lemma song_counts_Permutation (df df' : DataFrame) :
  Permutation df df' -> song_counts df = song_counts df'.
Proof.
  intros P. unfold song_counts.
  rewrite (group_keys_Permutation (dropna (map clean_song df))
             (dropna (map clean_song df')))
    by now apply dropna_Permutation, Permutation_map.
  rewrite (nunique_Permutation Z.eqb (Dates df) (Dates df') Z.eqb_eq)
    by now apply Dates_Permutation.
  apply map_ext. intros k.
  assert (El : len (filter (fun r => cell_is k (clean_song r)) df)
               = len (filter (fun r => cell_is k (clean_song r)) df')).
  { unfold len. f_equal. now apply Permutation_length, filter_Permutation. }
  now rewrite El.
Qed.

Lemma StronglySorted_app_cut {A : Type} (R : A -> A -> Prop) (a b : list A) :
  StronglySorted R (a ++ b) -> forall x y, In x a -> In y b -> R x y.
Proof.
  induction a as [|z a IH]; intros Hs x y Hx Hy; [contradiction|].
  simpl in Hs. inversion Hs as [|? ? Hs' Hz]; subst.
  destruct Hx as [<- | Hx].
  - rewrite Forall_forall in Hz. apply Hz, in_or_app. now right.
  - now apply IH.
Qed.

Section TopSongsMore.
Context `{Pandas}.

(** X3: asked for at least as many entries as there are distinct clean
    songs, [get_top_songs] returns the whole ranking: one entry per clean
    song, and the play counts add up to the number of rows that have a
    clean song. Rows whose song is missing are counted nowhere. *)
Theorem get_top_songs_whole_ranking (df : DataFrame) (n : Z) :
  nunique str_eqb (dropna (map clean_song df)) <= n ->
  exists out,
    get_top_songs (Some n) df = Ok out
    /\ Permutation out (song_counts df)
    /\ len out = nunique str_eqb (dropna (map clean_song df))
    /\ total (map play_count out)
       = len (filter (fun r => notna (clean_song r)) df)
    /\ total (map play_count out) <= len df.
Proof.
  intros Hn. unfold get_top_songs.
  pose proof (sort_values_perm play_count false (song_counts df)) as P.
  rewrite head_all.
  - eexists; split; [reflexivity|]. split; [exact P|]. split; [|split].
    + unfold len. rewrite (Permutation_length P). apply song_counts_length.
    + rewrite (total_Permutation _ _ (Permutation_map play_count P)).
      apply song_counts_total.
    + rewrite (total_Permutation _ _ (Permutation_map play_count P)).
      rewrite song_counts_total. apply filter_len_le.
  - unfold len. rewrite (Permutation_length P).
    fold (len (song_counts df)). now rewrite song_counts_length.
Qed.

(** X4: whatever [n] is, the entries [get_top_songs] returns name pairwise
    different clean songs, each the clean song of some row and played at
    least once, and there are no more entries than distinct clean songs. *)
Theorem get_top_songs_distinct (df : DataFrame) (n : option Z) :
  exists out,
    get_top_songs n df = Ok out
    /\ NoDup (map song out)
    /\ (forall e, In e out ->
          1 <= play_count e
          /\ exists r, In r df /\ clean_song r = Some (song e))
    /\ len out <= nunique str_eqb (dropna (map clean_song df)).
Proof.
  unfold get_top_songs.
  pose proof (sort_values_perm play_count false (song_counts df)) as P.
  destruct (head_prefix (match n with Some n0 => n0 | None => 10 end)
              (sort_values play_count false (song_counts df))) as (k & ->).
  eexists; split; [reflexivity|]. split; [|split].
  - rewrite <- firstn_map. apply NoDup_firstn.
    apply (Permutation_NoDup (Permutation_map song (Permutation_sym P))).
    rewrite song_counts_songs. apply group_keys_NoDup.
  - intros e He. apply song_counts_positive.
    apply (Permutation_in _ P). eapply firstn_In, He.
  - rewrite <- song_counts_length. unfold len.
    rewrite <- (Permutation_length P), length_firstn. lia.
Qed.

(** X5: a shorter list of top songs is the beginning of a longer one, and
    no song left out of the top [n] is played more often than one in it. *)
Theorem get_top_songs_prefix (df : DataFrame) (n m : Z) :
  0 <= n <= m ->
  exists a b rest,
    get_top_songs (Some n) df = Ok a
    /\ get_top_songs (Some m) df = Ok b
    /\ a = firstn (Z.to_nat n) b
    /\ Permutation (a ++ rest) (song_counts df)
    /\ forall e e', In e a -> In e' rest -> play_count e' <= play_count e.
Proof.
  intros [Hn Hm]. unfold get_top_songs, head.
  destruct (Z.leb_spec 0 n); [|lia]. destruct (Z.leb_spec 0 m); [|lia].
  set (ranking := sort_values play_count false (song_counts df)).
  exists (firstn (Z.to_nat n) ranking), (firstn (Z.to_nat m) ranking),
    (skipn (Z.to_nat n) ranking).
  split; [reflexivity|]. split; [reflexivity|]. split; [|split].
  - rewrite firstn_firstn. f_equal. lia.
  - rewrite firstn_skipn. apply sort_values_perm.
  - intros e e' He He'.
    pose proof (sort_values_descending play_count (song_counts df)) as Hs.
    fold ranking in Hs. rewrite <- (firstn_skipn (Z.to_nat n) ranking) in Hs.
    exact (StronglySorted_app_cut _ _ _ Hs e e' He He').
Qed.

(** X6: the ranking does not depend on the order of the rows of the
    frame. *)
Theorem get_top_songs_row_order (df df' : DataFrame) (n : option Z) :
  Permutation df df' -> get_top_songs n df = get_top_songs n df'.
Proof.
  intros P. unfold get_top_songs.
  now rewrite (song_counts_Permutation df df' P).
Qed.
End TopSongsMore.

Lemma get_top_songs_whole_ranking_witness :
  exists out,
    @get_top_songs reference_pandas (Some 2) missing_song_frame = Ok out
    /\ Permutation out (song_counts missing_song_frame)
    /\ len out = nunique str_eqb (dropna (map clean_song missing_song_frame))
    /\ total (map play_count out)
       = len (filter (fun r => notna (clean_song r)) missing_song_frame)
    /\ total (map play_count out) <= len missing_song_frame.
Proof.
  apply (@get_top_songs_whole_ranking reference_pandas missing_song_frame 2).
  vm_compute. discriminate.
Defined.

Lemma get_top_songs_prefix_witness :
  exists a b rest,
    @get_top_songs reference_pandas (Some 1) example_frame = Ok a
    /\ @get_top_songs reference_pandas (Some 2) example_frame = Ok b
    /\ a = firstn (Z.to_nat 1) b
    /\ Permutation (a ++ rest) (song_counts example_frame)
    /\ forall e e', In e a -> In e' rest -> play_count e' <= play_count e.
Proof.
  apply (@get_top_songs_prefix reference_pandas example_frame 1 2). lia.
Defined.

Lemma get_top_songs_row_order_witness :
  @get_top_songs reference_pandas None example_frame
  = @get_top_songs reference_pandas None (rev example_frame).
Proof.
  apply (@get_top_songs_row_order reference_pandas). apply Permutation_rev.
Defined.


(** ** Songs played once a show *)

Lemma unique_NoDup_id {A : Type} (eqb : A -> A -> bool) (l : list A) :
  (forall x y, eqb x y = true <-> x = y) -> NoDup l -> unique eqb l = l.
Proof.
  intros Heq. induction 1 as [|x l Hx Hl IH]; [reflexivity|].
  simpl. rewrite IH. f_equal.
  apply forallb_filter_id, forallb_forall. intros y Hy.
  apply negb_true_iff. destruct (eqb y x) eqn:E; [|reflexivity].
  apply Heq in E. subst. contradiction.
Qed.

Lemma nunique_incl_le (l l' : list Z) :
  incl l l' -> nunique Z.eqb l <= nunique Z.eqb l'.
Proof.
  intros Hi. unfold nunique. apply Nat2Z.inj_le, NoDup_incl_length.
  - apply (unique_NoDup Z.eqb Z.eqb_eq).
  - intros x Hx. apply (unique_In Z.eqb Z.eqb_eq).
    apply Hi. exact (proj1 (unique_In Z.eqb Z.eqb_eq l x) Hx).
Qed.

Lemma distinct_show_count_le_shows (k : str) (df : DataFrame) :
  distinct_show_count k df <= nunique Z.eqb (Dates df).
Proof.
  apply nunique_incl_le. intros d Hd. apply Dates_In in Hd.
  destruct Hd as (r & Hr & Ed). apply filter_In in Hr.
  apply Dates_In. exists r. now split.
Qed.

(** When every row has a date and no clean song has two rows of one date,
    the rows of a song are its shows. *)
Lemma row_count_once_a_show (k : str) (df : DataFrame) :
  all_dated df ->
  NoDup (map (fun r => (Date r, clean_song r)) df) ->
  row_count k df = distinct_show_count k df.
Proof.
  intros Hd Hn. unfold row_count, distinct_show_count, nunique, len.
  assert (Hb : NoDup (Dates (filter (fun r => cell_is k (clean_song r)) df))
               /\ length (Dates (filter (fun r => cell_is k (clean_song r))
                                   df))
                  = length (filter (fun r => cell_is k (clean_song r)) df)).
  { induction df as [|r df IH]; [split; [constructor | reflexivity]|].
    simpl in Hn. inversion Hn as [|? ? Hr Hn']; subst.
    destruct IH as [IHn IHl]; [intros r' Hr'; apply Hd; now right | exact Hn'|].
    simpl. destruct (cell_is k (clean_song r)) eqn:E; [|now split].
    apply cell_is_true in E.
    destruct (Date r) as [d|] eqn:Ed;
      [|exfalso; apply (Hd r); [now left | exact Ed]].
    unfold Dates in *. simpl. rewrite Ed. simpl.
    split; [|now rewrite IHl].
    constructor; [|exact IHn].
    intros Hin. apply (Dates_In _ d) in Hin. destruct Hin as (r' & Hr' & Ed').
    apply filter_In in Hr'. destruct Hr' as [Hin Ek].
    apply cell_is_true in Ek.
    apply Hr. apply in_map_iff. exists r'. split; [|assumption].
    now rewrite Ed', Ek, E. }
  destruct Hb as [Hb Hl].
  rewrite (unique_NoDup_id Z.eqb _ Z.eqb_eq Hb). now rewrite Hl.
Qed.

Section OnceAShow.
Context `{Pandas}.

(** X7: on a frame in which every row has a date and no clean song has two
    rows of one date, every entry of [get_top_songs] has as play count the
    number of distinct dates at which its song appears, which is at most the
    number of shows. *)
Theorem get_top_songs_once_a_show (df : DataFrame) (n : option Z) :
  all_dated df ->
  NoDup (map (fun r => (Date r, clean_song r)) df) ->
  exists out,
    get_top_songs n df = Ok out
    /\ forall e, In e out ->
         play_count e = distinct_show_count (song e) df
         /\ 1 <= play_count e <= nunique Z.eqb (Dates df).
Proof.
  intros Hd Hn. unfold get_top_songs.
  destruct (head_prefix (match n with Some n0 => n0 | None => 10 end)
              (sort_values play_count false (song_counts df))) as (k & ->).
  eexists; split; [reflexivity|]. intros e He.
  apply firstn_In in He.
  apply (Permutation_in _ (sort_values_perm play_count false _)) in He.
  destruct (song_counts_positive df e He) as [Hpos _].
  destruct (song_counts_entries df e He) as [Hc Hp].
  rewrite (row_count_once_a_show _ _ Hd Hn) in Hc. split; [exact Hc|].
  pose proof (distinct_show_count_le_shows (song e) df) as Hle.
  rewrite <- Hc in Hle. lia.
Qed.
End OnceAShow.

Lemma get_top_songs_once_a_show_witness :
  exists out,
    @get_top_songs reference_pandas None example_frame = Ok out
    /\ forall e, In e out ->
         play_count e = distinct_show_count (song e) example_frame
         /\ 1 <= play_count e
            <= nunique Z.eqb (Dates example_frame).
Proof.
  apply (@get_top_songs_once_a_show reference_pandas example_frame None).
  - intros r [<- | [<- | [<- | []]]]; discriminate.
  - repeat constructor; simpl; intros Hin;
      repeat (destruct Hin as [Hin | Hin]; [discriminate Hin|]); exact Hin.
Defined.

(** Without a date on its row a song is played at no show: the play count
    is 1, the number of shows 0 and the percentage infinite. *)
Example get_top_songs_undated_row :
  @get_top_songs reference_pandas None
     (rows_of [(NaT, Some (py "VenueA"), Some (py "Song1"))])
  = Ok [ {| song := py "Song1"; play_count := 1;
            percentage := infinity |} ].
Proof. reflexivity. Qed.

(** ** More on venue statistics *)

Lemma filter_filter_andb {A : Type} (p q : A -> bool) (l : list A) :
  filter p (filter q l) = filter (fun x => q x && p x) l.
Proof.
  induction l as [|x l IH]; [reflexivity|]. simpl.
  destruct (q x); simpl; [destruct (p x)|]; now rewrite IH.
Qed.

(** The songs of the venues are the rows that have a venue and a song. *)
Lemma venue_groups_total (df : DataFrame) :
  total (map venue_total_songs (venue_groups df))
  = len (filter (fun r => notna (Song r) && notna (Venue r)) df).
Proof.
  unfold venue_groups. rewrite map_map. cbn [venue_total_songs].
  set (sung := filter (fun r => notna (Song r)) df).
  rewrite (map_ext _ (fun v => len (filter (fun x => str_eqb x v)
                                       (dropna (map Venue sung))))).
  - unfold total. rewrite (sum_counts_NoDup str_eqb str_eqb_eq).
    + unfold sung.
      rewrite <- (filter_filter_andb (fun r => notna (Venue r))
                    (fun r => notna (Song r)) df).
      exact (dropna_len_filter Venue _).
    + apply group_keys_NoDup.
    + intros x Hx. apply group_keys_In, dropna_In.
      apply dropna_In, in_map_iff in Hx. destruct Hx as (r & E & Hr).
      apply filter_In in Hr. rewrite <- E. now apply in_map.
  - intros v. rewrite <- cell_is_len.
    etransitivity; [exact (dropna_len_filter Song _)|].
    unfold sung. rewrite !filter_filter_andb.
    rewrite (filter_ext (fun x => cell_is v (Venue x) && notna (Song x))
               (fun x => notna (Song x) && cell_is v (Venue x)));
      [reflexivity | intros r; apply andb_comm].
Qed.

Lemma venue_groups_length (df : DataFrame) :
  len (venue_groups df) = nunique str_eqb (dropna (map Venue df)).
Proof.
  unfold len, nunique. f_equal.
  rewrite <- (length_map venue), venue_groups_venues.
  apply Permutation_length, group_keys_perm.
Qed.

Lemma venue_groups_rows (df : DataFrame) (e : VenueStat) :
  In e (venue_groups df) ->
  let rows := filter (fun r => cell_is (venue e) (Venue r)) df in
  rows <> []
  /\ 0 <= shows e <= len rows
  /\ 0 <= venue_total_songs e <= len rows
  /\ ((exists r, In r rows /\ Date r <> NaT) -> 1 <= shows e).
Proof.
  intros He rows.
  assert (Hv : In (Some (venue e)) (map Venue df)).
  { apply dropna_In, group_keys_In. rewrite <- venue_groups_venues.
    now apply in_map. }
  apply in_map_iff in Hv. destruct Hv as (r & Er & Hr).
  destruct (venue_groups_entries df e He) as (Hs & Ht & _).
  fold rows in Hs, Ht.
  assert (Hf : In r rows)
    by (apply filter_In; split; [assumption | now apply cell_is_true]).
  split; [intros E; rewrite E in Hf; contradiction|].
  split; [|split].
  - rewrite Hs. pose proof (nunique_le Z.eqb (Dates rows)).
    pose proof (Dates_length_le rows). lia.
  - rewrite Ht. split; [unfold len; lia | exact (dropna_len_le Song rows)].
  - intros (r' & Hr' & Ed). rewrite Hs. apply nunique_bounds.
    destruct (Date r') as [d|] eqn:E; [|contradiction].
    intros Hnil.
    assert (Hd : In d (Dates rows)) by (apply Dates_In; now exists r').
    rewrite Hnil in Hd. contradiction.
Qed.

Section VenueStatsMore.
Context `{Pandas}.

(** X8: [get_venue_stats] has as many entries as there are venue names in
    the frame, the number [get_stats] reports as [total_venues]; their
    [total_songs] add up to the number of rows that have both a venue and a
    song; and every entry has a row, with no more shows and no more songs
    than rows, and at least one show when one of its rows has a date. *)
Theorem get_venue_stats_totals (df : DataFrame) :
  exists out,
    get_venue_stats df = Ok out
    /\ len out = nunique str_eqb (dropna (map Venue df))
    /\ (forall st, get_stats df = Ok st -> len out = total_venues st)
    /\ total (map venue_total_songs out)
       = len (filter (fun r => notna (Song r) && notna (Venue r)) df)
    /\ forall e, In e out ->
         let rows := filter (fun r => cell_is (venue e) (Venue r)) df in
         rows <> []
         /\ 0 <= shows e <= len rows
         /\ 0 <= venue_total_songs e <= len rows
         /\ ((exists r, In r rows /\ Date r <> NaT) -> 1 <= shows e).
Proof.
  eexists; split; [reflexivity|].
  pose proof (sort_values_perm shows false (venue_groups df)) as P.
  assert (Hl : len (sort_values shows false (venue_groups df))
               = nunique str_eqb (dropna (map Venue df))).
  { unfold len. rewrite (Permutation_length P). apply venue_groups_length. }
  split; [exact Hl|]. split; [|split].
  - intros st E. rewrite Hl.
    destruct (get_stats_fields df st E) as (Hne & _ & _).
    destruct (get_stats_returns df Hne) as (st' & E' & _ & _ & _ & Hv & _).
    rewrite E in E'. injection E' as <-. now rewrite Hv.
  - rewrite (total_Permutation _ _ (Permutation_map venue_total_songs P)).
    apply venue_groups_total.
  - intros e He. apply (venue_groups_rows df).
    exact (Permutation_in _ P He).
Qed.
End VenueStatsMore.

(** ** Shows by venue *)

(** Distinct dates that are spread over groups are at most as many as the
    distinct dates of the groups taken together. *)
Lemma covered_dates_le {B : Type} (U : B -> list Z) (V : list B) :
  forall D : list Z,
    NoDup D ->
    (forall d, In d D -> exists v, In v V /\ In d (U v)) ->
    len D <= total (map (fun v => nunique Z.eqb (U v)) V).
Proof.
  induction V as [|v V IH]; intros D Hn Hc.
  - destruct D as [|d D]; [reflexivity|].
    destruct (Hc d (or_introl eq_refl)) as (v & [] & _).
  - set (p := fun d => existsb (Z.eqb d) (U v)).
    assert (Hp : forall d, p d = true <-> In d (U v)).
    { intros d. unfold p. rewrite existsb_exists. split.
      - intros (x & Hx & E). apply Z.eqb_eq in E. now subst.
      - intros Hd. exists d. split; [assumption | apply Z.eqb_refl]. }
    assert (H1 : len (filter p D) <= nunique Z.eqb (U v)).
    { unfold len, nunique. apply Nat2Z.inj_le, NoDup_incl_length.
      - now apply NoDup_filter.
      - intros d Hd. apply filter_In in Hd.
        apply (unique_In Z.eqb Z.eqb_eq), Hp, Hd. }
    assert (H2 : len (filter (fun d => negb (p d)) D)
                 <= total (map (fun v => nunique Z.eqb (U v)) V)).
    { apply IH; [now apply NoDup_filter|].
      intros d Hd. apply filter_In in Hd. destruct Hd as [Hd Hnp].
      destruct (Hc d Hd) as (v' & [<- | Hv'] & Hin); [|now exists v'].
      apply Hp in Hin. rewrite Hin in Hnp. discriminate. }
    pose proof (filter_length p D) as Hl.
    unfold len in *. simpl map. unfold total in *. simpl fold_right. lia.
Qed.

Section VenueShows.
Context `{Pandas}.

(** X19: when every row that has a date has a venue, the [shows] of the
    venues add up to at least [total_shows]: a date with rows at two venues
    counts as a show of both. *)
Theorem get_venue_stats_shows_total (df : DataFrame) :
  (forall r, In r df -> Date r <> NaT -> Venue r <> None) ->
  exists out,
    get_venue_stats df = Ok out
    /\ nunique Z.eqb (Dates df) <= total (map shows out).
Proof.
  intros Hv. eexists; split; [reflexivity|].
  pose proof (sort_values_perm shows false (venue_groups df)) as P.
  rewrite (total_Permutation _ _ (Permutation_map shows P)).
  unfold venue_groups. rewrite map_map. cbn [shows].
  apply (covered_dates_le
           (fun v => Dates (filter (fun r => cell_is v (Venue r)) df))
           (group_keys (dropna (map Venue df))) (unique Z.eqb (Dates df))).
  - apply (unique_NoDup Z.eqb Z.eqb_eq).
  - intros d Hd. apply (unique_In Z.eqb Z.eqb_eq), Dates_In in Hd.
    destruct Hd as (r & Hr & Ed).
    destruct (Venue r) as [v|] eqn:Ev.
    + exists v. split.
      * apply group_keys_In, dropna_In. rewrite <- Ev. now apply in_map.
      * apply Dates_In. exists r. split; [|exact Ed].
        apply filter_In. split; [assumption | now apply cell_is_true].
    + exfalso. apply (Hv r Hr); [now rewrite Ed | exact Ev].
Qed.
End VenueShows.

Lemma get_venue_stats_shows_total_witness :
  exists out,
    @get_venue_stats reference_pandas example_frame = Ok out
    /\ nunique Z.eqb (Dates example_frame) <= total (map shows out).
Proof.
  apply (@get_venue_stats_shows_total reference_pandas example_frame).
  intros r [<- | [<- | [<- | []]]] _; discriminate.
Defined.

(** A show whose only row has no venue belongs to no venue. *)
Example get_venue_stats_no_venue :
  @get_venue_stats reference_pandas
     (rows_of [(Timestamp (ymd 2023 1 1), None, Some (py "Song1"))])
  = Ok [].
Proof. reflexivity. Qed.

(** ** More on the export and on setlists *)

Section ExportMore.
Context `{Pandas}.

(** X9: [export_for_visualization] fails exactly on the frames that are
    empty or have a row without a date, always with [ValueError] (the one
    of [NaT.strftime]) and never on a missing first row. On every other
    frame its [shows] list has one entry per distinct date, in order of
    first appearance, with the formatted date, the songs of the rows of
    that date in row order, their number, which is at least one, and the
    venue of the first of those rows; its other parts are what the query
    methods return. *)
Theorem export_for_visualization_outcome (df : DataFrame) :
  (export_for_visualization df = Raise ValueError
   <-> df = [] \/ exists r, In r df /\ Date r = NaT)
  /\ (forall e, export_for_visualization df = Raise e -> e = ValueError)
  /\ forall doc,
       export_for_visualization df = Ok doc ->
       Forall2 (show_of_date df) (unique ts_eqb (map Date df))
         (export_shows doc)
       /\ get_top_songs (Some 20) df = Ok (song_frequency doc)
       /\ get_venue_stats df = Ok (venue_stats doc)
       /\ get_rare_songs df = Ok (rare_songs doc)
       /\ get_stats df = Ok (stats doc).
Proof.
  pose proof (export_outcome df) as Ho.
  destruct (export_for_visualization df) as [doc|e].
  - destruct Ho as (Hne & Hd & Hrest).
    split; [|split].
    + split; [discriminate|].
      intros [-> | (r & Hr & E)]; [contradiction | destruct (Hd r Hr E)].
    + discriminate.
    + intros doc' [= <-]. exact Hrest.
  - destruct Ho as [-> Hc].
    split; [|split].
    + split; [intros _; exact Hc | reflexivity].
    + now intros e [= <-].
    + discriminate.
Qed.

(** X10: when the date parser reads back what the formatter writes for the
    dates of the frame, every exported show lists the songs that
    [get_show_setlist] returns for its date text. *)
Theorem export_shows_are_setlists (df : DataFrame) (doc : Export) :
  (forall d, In d (Dates df) ->
             to_datetime (strftime d) = Some (Timestamp d)) ->
  export_for_visualization df = Ok doc ->
  forall sh, In sh (export_shows doc) ->
    get_show_setlist (date sh) df = Ok (songs sh).
Proof.
  intros Hrt E sh Hsh.
  pose proof (export_outcome df) as Ho. rewrite E in Ho.
  destruct Ho as (_ & _ & HF & _).
  assert (Hex : exists t, In t (unique ts_eqb (map Date df))
                          /\ show_of_date df t sh).
  { clear - HF Hsh. induction HF as [|d s ds shs Hd _ IH]; [contradiction|].
    destruct Hsh as [<- | Hsh].
    - exists d. split; [now left | assumption].
    - destruct (IH Hsh) as (d' & Hd' & Hs'). exists d'.
      split; [now right|auto]. }
  destruct Hex as (t & Ht & d & -> & Hdate & Hsongs & _).
  apply (proj1 (unique_In ts_eqb ts_eqb_eq (map Date df) _)) in Ht.
  apply in_map_iff in Ht. destruct Ht as (r & Ed & Hr).
  assert (Hd : In d (Dates df)) by (apply Dates_In; now exists r).
  unfold get_show_setlist. rewrite Hdate, (Hrt d Hd), Hsongs. reflexivity.
Qed.

(** X11: for a text read as a date, the setlist is empty exactly when no
    row has that date; its songs are songs of the frame, no more than there
    are rows. *)
Theorem get_show_setlist_empty_iff (df : DataFrame) (s : str) (d : Z) :
  to_datetime s = Some (Timestamp d) ->
  exists l,
    get_show_setlist s df = Ok l
    /\ (l = [] <-> ~ In d (Dates df))
    /\ incl l (map Song df)
    /\ len l <= len df.
Proof.
  intros E. unfold get_show_setlist. rewrite E. cbn [date_eq].
  eexists; split; [reflexivity|]. split; [|split].
  - split.
    + intros Hl Hin. apply Dates_In in Hin. destruct Hin as (r & Hr & Hin).
      assert (Hf : In (Song r)
                     (map Song (filter (fun r => date_is d (Date r)) df))).
      { apply in_map, filter_In. split; [assumption | now apply date_is_true]. }
      rewrite Hl in Hf. contradiction.
    + intros Hno.
      destruct (filter (fun r => date_is d (Date r)) df) as [|r rows] eqn:Ef;
        [reflexivity|].
      exfalso. apply Hno.
      assert (Hr : In r (filter (fun r => date_is d (Date r)) df))
        by (rewrite Ef; now left).
      apply filter_In in Hr. destruct Hr as [Hr Hd].
      apply date_is_true in Hd. apply Dates_In. now exists r.
  - intros x Hx. apply in_map_iff in Hx. destruct Hx as (r & <- & Hr).
    apply filter_In in Hr. now apply in_map.
  - unfold len. rewrite length_map.
    pose proof (filter_length_le (fun r => date_is d (Date r)) df). lia.
Qed.
End ExportMore.

Lemma export_shows_are_setlists_witness :
  exists doc,
    @export_for_visualization reference_pandas example_frame = Ok doc
    /\ forall sh, In sh (export_shows doc) ->
         @get_show_setlist reference_pandas (date sh) example_frame
         = Ok (songs sh).
Proof.
  eexists. split; [reflexivity|].
  apply (@export_shows_are_setlists reference_pandas example_frame).
  - intros d [<- | [<- | [<- | []]]]; reflexivity.
  - reflexivity.
Defined.

Lemma get_show_setlist_empty_iff_witness :
  exists l,
    @get_show_setlist reference_pandas (py "2023-06-01") example_frame = Ok l
    /\ (l = [] <-> ~ In (ymd 2023 6 1) (Dates example_frame))
    /\ incl l (map Song example_frame)
    /\ len l <= len example_frame.
Proof.
  apply (@get_show_setlist_empty_iff reference_pandas example_frame
           (py "2023-06-01") (ymd 2023 6 1)).
  reflexivity.
Defined.

(** ** More on clean song names and the flags *)

Lemma lstrip_head (s : str) (c : ascii) (t : str) :
  lstrip s = c :: t -> is_space c = false.
Proof.
  induction s as [|x s IH]; simpl; [discriminate|].
  destruct (is_space x) eqn:E; [exact IH|].
  intros Ex. now inversion Ex; subst.
Qed.

Lemma rstrip_last (s : str) (t : str) (c : ascii) :
  rstrip s = t ++ [c] -> is_space c = false.
Proof.
  unfold rstrip. intros E.
  apply (lstrip_head (rev s) c (rev t)).
  rewrite <- (rev_involutive (lstrip (rev s))), E, rev_app_distr.
  reflexivity.
Qed.

Lemma rstrip_prefix (s : str) : exists q, s = rstrip s ++ q.
Proof.
  unfold rstrip. destruct (lstrip_suffix (rev s)) as (p & E).
  exists (rev p). rewrite <- rev_app_distr, <- E. now rewrite rev_involutive.
Qed.

Lemma strip_head (s : str) (c : ascii) (t : str) :
  strip s = c :: t -> is_space c = false.
Proof.
  unfold strip. intros E.
  destruct (rstrip_prefix (lstrip s)) as (q & Eq).
  rewrite E in Eq. simpl in Eq. exact (lstrip_head s c _ Eq).
Qed.

Lemma strip_last (s : str) (t : str) (c : ascii) :
  strip s = t ++ [c] -> is_space c = false.
Proof. unfold strip. apply rstrip_last. Qed.

(** A text with no blank at either end is left as it is. *)
Lemma strip_fixed (u : str) :
  (forall c t, u = c :: t -> is_space c = false) ->
  (forall t c, u = t ++ [c] -> is_space c = false) ->
  strip u = u.
Proof.
  intros Hh Hl. unfold strip.
  assert (El : lstrip u = u).
  { destruct u as [|c t]; [reflexivity|]. simpl.
    now rewrite (Hh c t eq_refl). }
  rewrite El. unfold rstrip.
  destruct (rev u) as [|c w] eqn:Er.
  - simpl. rewrite <- (rev_involutive u), Er. reflexivity.
  - assert (Eu : u = rev w ++ [c])
      by (rewrite <- (rev_involutive u), Er; reflexivity).
    simpl. rewrite (Hl _ _ Eu). simpl. now rewrite Eu.
Qed.

(** X12: the clean song of a loaded row neither begins nor ends with a
    blank character. *)
Theorem clean_song_trimmed (csv : list CsvRow) (r : Row) :
  In r (rows_of csv) ->
  (forall c t, clean_song r = Some (c :: t) -> is_space c = false)
  /\ (forall t c, clean_song r = Some (t ++ [c]) -> is_space c = false).
Proof.
  intros Hr. rewrite (rows_of_clean_song csv r Hr).
  destruct (Song r) as [s|]; cbn [option_map]; [|split; discriminate].
  split.
  - intros c t [= E]. exact (strip_head _ c t E).
  - intros t c [= E]. exact (strip_last _ t c E).
Qed.

(** X13: cleaning is idempotent on one line: a row whose raw song is the
    clean song of another row of one line has that value as its clean
    song. *)
Theorem clean_song_idempotent (d d' : timestamp) (v v' s : cell) :
  (forall t, s = Some t -> ~ In newline t) ->
  clean_song (process_row (d', v', clean_song (process_row (d, v, s))))
  = clean_song (process_row (d, v, s)).
Proof.
  intros Hnl. destruct s as [t|]; [|reflexivity].
  specialize (Hnl t eq_refl). cbn [process_row clean_song option_map].
  f_equal.
  assert (Hp : ~ has_paren_pair (strip (sub_parens t))).
  { intros Hp. apply has_paren_pair_strip in Hp.
    now apply (sub_parens_one_line t). }
  rewrite (sub_parens_no_pair _ Hp).
  apply strip_fixed.
  - intros c u. apply strip_head.
  - intros u c. apply strip_last.
Qed.

(** X14: the flags of a loaded row say what the raw song contains, letter
    case ignored: [is_cover] the word cover, [is_special] one of the four
    phrases of the pattern. A row without a song has neither flag. *)
Theorem process_songs_flags (c : CsvRow) :
  is_cover (process_row c)
  = cell_contains_ci (py "cover") (Song (process_row c))
  /\ is_special (process_row c)
     = (cell_contains_ci (py "first time") (Song (process_row c))
        || cell_contains_ci (py "dedicated") (Song (process_row c))
        || cell_contains_ci (py "with Sadler") (Song (process_row c))
        || cell_contains_ci (py "bluegrass") (Song (process_row c))).
Proof.
  destruct c as [[d v] [s|]]; [|split; reflexivity].
  cbn [process_row is_cover is_special Song str_contains cell_contains_ci].
  unfold cover_re, special_re, re_search. cbn [existsb].
  rewrite !search_alt_literal, !orb_false_r, !orb_assoc. split; reflexivity.
Qed.

Lemma clean_song_trimmed_witness :
  let row := line (ymd 2023 1 1) "VenueA" " Song2 (cover) " in
  (forall c t, clean_song (process_row row) = Some (c :: t) ->
               is_space c = false)
  /\ (forall t c, clean_song (process_row row) = Some (t ++ [c]) ->
                  is_space c = false).
Proof.
  apply (clean_song_trimmed [line (ymd 2023 1 1) "VenueA" " Song2 (cover) "]).
  now left.
Defined.

Lemma clean_song_idempotent_witness :
  clean_song
    (process_row
       (Timestamp (ymd 2023 6 1), Some (py "VenueB"),
        clean_song (process_row (line (ymd 2023 1 1) "VenueA"
                                   "Song2 (cover)"))))
  = clean_song (process_row (line (ymd 2023 1 1) "VenueA" "Song2 (cover)")).
Proof.
  apply (clean_song_idempotent (Timestamp (ymd 2023 1 1))
           (Timestamp (ymd 2023 6 1))).
  intros t [= <-]. simpl. intros Hin.
  repeat (destruct Hin as [Hin | Hin]; [discriminate Hin|]). exact Hin.
Defined.

(** ** More on searching for a song *)

Lemma prefixb_refl (p s : str) : prefixb p (p ++ s) = true.
Proof.
  induction p as [|x p IH]; [reflexivity|]. simpl.
  rewrite IH, andb_true_r. now apply chr_eqb_eq.
Qed.

Lemma contains_ci_refl (s : str) : contains_ci s s = true.
Proof.
  unfold contains_ci.
  pose proof (prefixb_refl (map lower s) []) as Hp. rewrite app_nil_r in Hp.
  destruct (map lower s); simpl in *; [reflexivity | now rewrite Hp].
Qed.

Lemma option_map_push_cons (a : atom) (alt : list atom) (o : option regex) :
  option_map (push a) (option_map (cons alt) o)
  = option_map (cons (a :: alt)) o.
Proof. now destruct o. Qed.

(** A bar behind a text without metacharacters starts a new alternative. *)
Lemma re_parse_bar (s1 s2 : str) :
  forallb (fun c => negb (is_meta c)) s1 = true ->
  re_parse (s1 ++ "|"%char :: s2)
  = option_map (cons (map Lit s1)) (re_parse s2).
Proof.
  induction s1 as [|c s1 IH]; [reflexivity|]. simpl forallb.
  rewrite andb_true_iff, negb_true_iff. intros [Hc Hs].
  assert (Hbar : chr_eqb c "|" = false).
  { destruct (chr_eqb c "|") eqn:E; auto.
    apply chr_eqb_eq in E; subst. discriminate. }
  assert (Hdot : chr_eqb c "." = false).
  { destruct (chr_eqb c ".") eqn:E; auto.
    apply chr_eqb_eq in E; subst. discriminate. }
  assert (Hesc : chr_eqb c "\" = false).
  { destruct (chr_eqb c "\") eqn:E; auto.
    apply chr_eqb_eq in E; subst. discriminate. }
  simpl app. simpl re_parse. rewrite Hbar, Hdot, Hesc, Hc, (IH Hs).
  apply option_map_push_cons.
Qed.

Section FindSongMore.
Context `{Pandas}.

(** X15: a bar between two texts without metacharacters makes
    [find_song_appearances] return the rows whose clean song contains the
    one or the other, letter case ignored, in ascending order of date, the
    rows without a date last. *)
Theorem find_song_appearances_either (df : DataFrame) (s1 s2 : str) :
  forallb (fun c => negb (is_meta c)) s1 = true ->
  forallb (fun c => negb (is_meta c)) s2 = true ->
  exists out,
    find_song_appearances (s1 ++ "|"%char :: s2) df = Some (Ok out)
    /\ Permutation out
         (map (fun r => (Date r, Venue r, Song r))
              (filter (fun r => cell_contains_ci s1 (clean_song r)
                                || cell_contains_ci s2 (clean_song r)) df))
    /\ StronglySorted
         (fun a b => na_last_le (appearance_date a) (appearance_date b)) out.
Proof.
  intros H1 H2.
  assert (E : re_parse (s1 ++ "|"%char :: s2) = Some [map Lit s1; map Lit s2])
    by (rewrite (re_parse_bar s1 s2 H1), (re_parse_literal s2 H2); reflexivity).
  destruct (find_song_appearances_regex df _ _ E) as (out & Eo & P & S).
  exists out. split; [exact Eo|]. split; [|exact S].
  rewrite P. apply Permutation_map.
  rewrite (filter_ext _ (fun r => cell_contains_ci s1 (clean_song r)
                                  || cell_contains_ci s2 (clean_song r)));
    [reflexivity|].
  intros r. destruct (clean_song r) as [c|]; [|reflexivity].
  unfold str_contains, re_search. simpl.
  now rewrite !search_alt_literal, orb_false_r.
Qed.

(** X16: searching for the clean song of a row of the frame, when it has
    no metacharacter, finds that row; and what is found are rows of the
    frame, no more than it has. *)
Theorem find_song_appearances_finds_row (df : DataFrame) (r : Row) (k : str) :
  In r df ->
  clean_song r = Some k ->
  forallb (fun c => negb (is_meta c)) k = true ->
  exists out,
    find_song_appearances k df = Some (Ok out)
    /\ In (Date r, Venue r, Song r) out
    /\ incl out (map (fun r => (Date r, Venue r, Song r)) df)
    /\ len out <= len df.
Proof.
  intros Hr Ek Hm.
  destruct (find_song_appearances_regex df _ _ (re_parse_literal _ Hm))
    as (out & Eo & P & _).
  exists out. split; [exact Eo|]. split; [|split].
  - apply (Permutation_in _ (Permutation_sym P)).
    apply (in_map (fun r => (Date r, Venue r, Song r))), filter_In.
    split; [exact Hr|]. rewrite Ek. unfold str_contains, re_search. simpl.
    now rewrite search_alt_literal, contains_ci_refl.
  - intros a Ha. apply (Permutation_in _ P), in_map_iff in Ha.
    destruct Ha as (r' & <- & Hr'). apply filter_In in Hr'.
    now apply (in_map (fun r => (Date r, Venue r, Song r))).
  - unfold len. rewrite (Permutation_length P), length_map.
    pose proof (filter_length_le
                  (fun r0 => str_contains [map Lit k] (clean_song r0)) df).
    lia.
Qed.
End FindSongMore.

Lemma find_song_appearances_either_witness :
  exists out,
    @find_song_appearances reference_pandas
      (py "song1" ++ "|"%char :: py "song2") example_frame
    = Some (Ok out)
    /\ Permutation out
         (map (fun r => (Date r, Venue r, Song r))
              (filter (fun r => cell_contains_ci (py "song1") (clean_song r)
                                || cell_contains_ci (py "song2")
                                     (clean_song r))
                      example_frame))
    /\ StronglySorted
         (fun a b => na_last_le (appearance_date a) (appearance_date b)) out.
Proof.
  apply (@find_song_appearances_either reference_pandas example_frame
           (py "song1") (py "song2")); reflexivity.
Defined.

Lemma find_song_appearances_finds_row_witness :
  exists out,
    @find_song_appearances reference_pandas (py "Song2") example_frame
    = Some (Ok out)
    /\ In (line (ymd 2023 1 1) "VenueA" "Song2 (cover)") out
    /\ incl out (map (fun r => (Date r, Venue r, Song r)) example_frame)
    /\ len out <= len example_frame.
Proof.
  apply (@find_song_appearances_finds_row reference_pandas example_frame
           (process_row (line (ymd 2023 1 1) "VenueA" "Song2 (cover)"))
           (py "Song2")).
  - right. now left.
  - reflexivity.
  - reflexivity.
Defined.

(** ** Rare songs and the ranking *)

Section RareSongsMore.
Context `{Pandas}.

(** X17: the rare songs are the songs the ranking counts once: the raw
    song of a loaded row is returned by [get_rare_songs] exactly when the
    whole ranking has an entry for its clean song with play count 1. *)
Theorem rare_songs_in_ranking (csv : list CsvRow) (n : Z) :
  nunique str_eqb (dropna (map clean_song (rows_of csv))) <= n ->
  exists top rare,
    get_top_songs (Some n) (rows_of csv) = Ok top
    /\ get_rare_songs (rows_of csv) = Ok rare
    /\ forall r, In r (rows_of csv) ->
         (In (Song r) rare <->
          exists e, In e top /\ Some (song e) = clean_song r
                    /\ play_count e = 1).
Proof.
  intros Hn. set (df := rows_of csv).
  pose proof (sort_values_perm play_count false (song_counts df)) as P.
  exists (sort_values play_count false (song_counts df)).
  eexists. split; [|split; [reflexivity|]].
  - unfold get_top_songs. rewrite head_all; [reflexivity|].
    unfold len. rewrite (Permutation_length P).
    fold (len (song_counts df)). now rewrite song_counts_length.
  - intros r Hr.
    rewrite (get_rare_songs_In df (Song r) _ eq_refl). split.
    + intros (r' & k & Hr' & Es & Ek & Hc).
      assert (Ec : clean_song r = Some k).
      { rewrite (rows_of_clean_song csv r Hr), <- Es.
        now rewrite <- (rows_of_clean_song csv r' Hr'). }
      assert (Hk : In k (map song (song_counts df))).
      { rewrite song_counts_songs. apply group_keys_In, dropna_In.
        rewrite <- Ec. now apply in_map. }
      apply in_map_iff in Hk. destruct Hk as (e & Ee & He).
      exists e. split; [apply (Permutation_in _ (Permutation_sym P)), He|].
      split; [now rewrite Ee, Ec|].
      destruct (song_counts_entries df e He) as [Hpc _].
      now rewrite Hpc, Ee.
    + intros (e & He & Ee & Hc). exists r, (song e). repeat split; auto.
      apply (Permutation_in _ P) in He.
      destruct (song_counts_entries df e He) as [Hpc _].
      now rewrite <- Hpc.
Qed.
End RareSongsMore.

Lemma rare_songs_in_ranking_witness :
  exists top rare,
    @get_top_songs reference_pandas (Some 10) example_frame = Ok top
    /\ get_rare_songs example_frame = Ok rare
    /\ forall r, In r example_frame ->
         (In (Song r) rare <->
          exists e, In e top /\ Some (song e) = clean_song r
                    /\ play_count e = 1).
Proof.
  apply (@rare_songs_in_ranking reference_pandas example_csv 10).
  vm_compute. discriminate.
Defined.

(** ** The order of the rows *)

Lemma date_min_Permutation (l l' : list Z) :
  Permutation l l' -> date_min l = date_min l'.
Proof.
  intros P. destruct l as [|x t], l' as [|x' t']; simpl.
  - reflexivity.
  - apply Permutation_nil in P. discriminate.
  - apply Permutation_sym, Permutation_nil in P. discriminate.
  - destruct (fold_min_spec t x) as [Hin Hle].
    destruct (fold_min_spec t' x') as [Hin' Hle'].
    f_equal. apply Z.le_antisymm.
    + apply Hle, (Permutation_in _ (Permutation_sym P)), Hin'.
    + apply Hle', (Permutation_in _ P), Hin.
Qed.

Lemma date_max_Permutation (l l' : list Z) :
  Permutation l l' -> date_max l = date_max l'.
Proof.
  intros P. destruct l as [|x t], l' as [|x' t']; simpl.
  - reflexivity.
  - apply Permutation_nil in P. discriminate.
  - apply Permutation_sym, Permutation_nil in P. discriminate.
  - destruct (fold_max_spec t x) as [Hin Hle].
    destruct (fold_max_spec t' x') as [Hin' Hle'].
    f_equal. apply Z.le_antisymm.
    + apply Hle', (Permutation_in _ P), Hin.
    + apply Hle, (Permutation_in _ (Permutation_sym P)), Hin'.
Qed.

Lemma row_count_Permutation (k : str) (df df' : DataFrame) :
  Permutation df df' -> row_count k df = row_count k df'.
Proof.
  intros P. unfold row_count, len. f_equal.
  now apply Permutation_length, filter_Permutation.
Qed.

Section RowOrder.
Context `{Pandas}.

(** X18: the order of the rows does not matter to [get_stats], which
    returns the same record (or fails alike) for a reordered frame, and to
    [get_rare_songs] it matters only for the order of the songs returned. *)
Theorem stats_and_rare_songs_row_order (df df' : DataFrame) :
  Permutation df df' ->
  get_stats df = get_stats df'
  /\ exists rare rare',
       get_rare_songs df = Ok rare
       /\ get_rare_songs df' = Ok rare'
       /\ Permutation rare rare'.
Proof.
  intros P. split.
  - unfold get_stats.
    rewrite (date_min_Permutation _ _ (Dates_Permutation _ _ P)).
    rewrite (date_max_Permutation _ _ (Dates_Permutation _ _ P)).
    rewrite (nunique_Permutation Z.eqb _ _ Z.eqb_eq (Dates_Permutation _ _ P)).
    rewrite (nunique_Permutation str_eqb _ _ str_eqb_eq
               (dropna_Permutation _ _ (Permutation_map clean_song P))).
    rewrite (nunique_Permutation str_eqb _ _ str_eqb_eq
               (dropna_Permutation _ _ (Permutation_map Venue P))).
    rewrite !count_true_map.
    assert (El : len df = len df')
      by (unfold len; now rewrite (Permutation_length P)).
    assert (Ec : len (filter is_cover df) = len (filter is_cover df'))
      by (unfold len; f_equal;
          now apply Permutation_length, filter_Permutation).
    assert (Es : len (filter is_special df) = len (filter is_special df'))
      by (unfold len; f_equal;
          now apply Permutation_length, filter_Permutation).
    now rewrite El, Ec, Es.
  - destruct (get_rare_songs df) as [rare|] eqn:Er; [|discriminate].
    destruct (get_rare_songs df') as [rare'|] eqn:Er'; [|discriminate].
    exists rare, rare'. split; [reflexivity|]. split; [reflexivity|].
    apply NoDup_Permutation.
    + injection Er as <-. apply (unique_NoDup cell_eqb cell_eqb_eq).
    + injection Er' as <-. apply (unique_NoDup cell_eqb cell_eqb_eq).
    + intros s.
      rewrite (get_rare_songs_In df s rare Er).
      rewrite (get_rare_songs_In df' s rare' Er').
      split; intros (r & k & Hr & Es & Ek & Hc); exists r, k;
        repeat split; auto.
      * exact (Permutation_in _ P Hr).
      * now rewrite <- (row_count_Permutation _ _ _ P).
      * exact (Permutation_in _ (Permutation_sym P) Hr).
      * now rewrite (row_count_Permutation _ _ _ P).
Qed.
End RowOrder.

Lemma stats_and_rare_songs_row_order_witness :
  @get_stats reference_pandas example_frame
  = @get_stats reference_pandas (rev example_frame)
  /\ exists rare rare',
       get_rare_songs example_frame = Ok rare
       /\ get_rare_songs (rev example_frame) = Ok rare'
       /\ Permutation rare rare'.
Proof.
  apply (@stats_and_rare_songs_row_order reference_pandas).
  apply Permutation_rev.
Defined.

(** ** The constructor *)



(** The two frames with a missing cell are frames of files the constructor
    loads. *)
Example init_missing_cells :
  __init__ [(Timestamp (ymd 2023 1 1), Some (py "VenueA"), None);
            line (ymd 2023 6 1) "VenueB" "Song1"]
  = Ok missing_song_frame
  /\ __init__ [line (ymd 2023 1 1) "VenueA" "Song1";
               (NaT, Some (py "VenueA"), Some (py "Song2"))]
     = Ok undated_frame.
Proof. split; reflexivity. Qed.

(** A file whose only line has an empty song field is not loaded. *)
Example init_no_song :
  __init__ [(Timestamp (ymd 2023 1 1), Some (py "VenueA"), None)]
  = Raise AttributeError.
Proof. reflexivity. Qed.

(** ** Rounding *)

(** The percentage of 23 plays in 80 shows: the binary64 product is just
    below 28.75 and rounds to 28.7; a song played at every third show has
    33.3 percent, and 7 songs in 2 shows are 3.5 a show. The two constants
    are the binary64 numbers that print as 28.7 and 33.3. *)
Example round1_binary64 :
  round1 (PrimFloat.mul (PrimFloat.div (to_float 23) (to_float 80)) 100%float)
  = 0x1.cb33333333333p+4%float
  /\ round1 (PrimFloat.mul (PrimFloat.div (to_float 1) (to_float 3))
               100%float)
     = 0x1.0a66666666666p+5%float
  /\ round1 (PrimFloat.div (to_float 7) (to_float 2)) = 3.5%float.
Proof. repeat split; vm_compute; reflexivity. Qed.
